(** * A shallow embedding of [model.py]

    The character-level arithmetic Transformer of this repository:
    its tokenizer, the elementary-school addition generator, the causal
    mask, the label-smoothing target, the learning-rate schedule, the
    training loop and the greedy decoder.

    Conventions.
    - A Python exception is a value of [exn]; a call that may raise
      returns a [result].
    - A Python character (a [str] of length one) is its code point, a
      [Z]; a [str] is the list of its characters.
    - Python integers are [Z]. *)

From Stdlib Require Import ZArith QArith Reals Lra List Bool Ascii String Lia.
From stdpp Require Import base list strings.

Local Open Scope Z_scope.

(** ** Python basics *)

Inductive exn : Set :=
| AssertionError
| IndexError
| ValueError
| ZeroDivisionError
| TypeError
| RuntimeError
| AttributeError
| OverflowError.

Inductive result (A : Type) : Type :=
| Ok (a : A)
| Raise (e : exn).
Arguments Ok {A} a.
Arguments Raise {A} e.

#[global] Instance result_ret : MRet result := fun A a => Ok a.
#[global] Instance result_bind : MBind result := fun A B k m =>
  match m with
  | Ok a => k a
  | Raise e => Raise e
  end.

Definition pychar := Z.
Definition pystr := list pychar.

Definition ord (c : pychar) : Z := c.

(** [chr(i)] raises [ValueError] outside [range(0x110000)]. *)
Definition chr (i : Z) : result pychar :=
  if (0 <=? i) && (i <? 1114112) then Ok i else Raise ValueError.

(** Literals: the code point of an ASCII character, and the [str] of a
    Rocq string. *)
Definition ch (a : ascii) : pychar := Z.of_N (N_of_ascii a).
Definition str (s : string) : pystr := map ch (list_ascii_of_string s).

Definition len {A} (l : list A) : Z := Z.of_nat (length l).

(** [x in l] *)
Definition py_in (x : Z) (l : list Z) : bool := existsb (Z.eqb x) l.

(** [l.index(x)]: the first position of [x], [ValueError] when absent. *)
Fixpoint py_index (l : list Z) (x : Z) : result Z :=
  match l with
  | [] => Raise ValueError
  | y :: l' => if Z.eqb y x then Ok 0 else (i ← py_index l' x; Ok (i + 1))
  end.

(** [l[i]], with Python's negative indices. *)
Definition py_getitem {A} (l : list A) (i : Z) : result A :=
  let j := if i <? 0 then i + len l else i in
  if j <? 0 then Raise IndexError
  else match l !! Z.to_nat j with
       | Some a => Ok a
       | None => Raise IndexError
       end.

(** ** Tokenizer *)

Definition operators : list pychar := str "~^$+-=".
Definition start_symbol : Z := 1.
Definition pad_symbol : Z := 0.
Definition voca_size : Z :=
  len operators + ord (ch "9") - ord (ch "0") + 1 + ord (ch "J") - ord (ch "A") + 1.

Definition to_token (c : pychar) : result Z :=
  if py_in c operators then py_index operators c
  else
    let res :=
      if ord (ch "9") <? ord c
      then ord c - ord (ch "A") + 10 + len operators
      else ord c - ord (ch "0") + len operators in
    if res <? voca_size then Ok res else Raise AssertionError.

Definition from_token (token : Z) : result pychar :=
  if token <? len operators then py_getitem operators token
  else
    t9 ← to_token (ch "9");
    if t9 <? token then
      t9' ← to_token (ch "9");
      chr (token - t9' + ord (ch "A") - 1)
    else chr (ord (ch "0") + token - len operators).

Fixpoint to_tokens (text : pystr) : result (list Z) :=
  match text with
  | [] => Ok []
  | c :: text' =>
      token ← to_token c;
      res ← to_tokens text';
      Ok (token :: res)
  end.

Fixpoint from_tokens (tokens : list Z) : result pystr :=
  match tokens with
  | [] => Ok []
  | token :: tokens' =>
      c ← from_token token;
      res ← from_tokens tokens';
      Ok (c :: res)
  end.

(** The fixed alphabet of the specification: the six operators, the
    digits and the letters [A]..[J]. *)
Definition alphabet : list pychar := str "~^$+-=0123456789ABCDEFGHIJ".

(** ** Dataset generation: elementary-school addition on strings *)

Definition padding_str (text : pystr) (length : Z) (position : string) : pystr :=
  if String.eqb position "left" then
    if len text <? length
    then replicate (Z.to_nat (length - len text)) (ch "0") ++ text
    else text
  else if String.eqb position "right" then
    if len text <? length
    then text ++ replicate (Z.to_nat (length - len text)) (ch "0")
    else text
  else text.

(** The body of the [for ch1, ch2 in zip(text1, text2)] loop. *)
Definition sum_two_chars (ch1 ch2 : pychar) : result pychar :=
  let c := (ord ch1 - ord (ch "0")) + (ord ch2 - ord (ch "0")) + ord (ch "0") in
  let c := if ord (ch "9") <? c then c - ord (ch "9") + ord (ch "A") else c in
  chr c.

Fixpoint sum_two_str_loop (pairs : list (pychar * pychar)) (res : pystr)
  : result pystr :=
  match pairs with
  | [] => Ok res
  | (ch1, ch2) :: pairs' =>
      c ← sum_two_chars ch1 ch2;
      sum_two_str_loop pairs' (res ++ [c])
  end.

Definition sum_two_str (str1 str2 : pystr) : result (pystr * pystr * pystr) :=
  let length := Z.max (len str1) (len str2) in
  let text1 := padding_str str1 length "left" in
  let text2 := padding_str str2 length "left" in
  res ← sum_two_str_loop (zip text1 text2) [];
  Ok (text1, text2, res).

(** ** Tensors

    A tensor is a nested list; the entries of a float tensor are exact
    rationals (rounding is outside this model). *)

Abbreviation tensor2 A := (list (list A)).
Abbreviation tensor3 A := (list (list (list A))).

Definition map2 {A B} (f : A -> B) (t : tensor2 A) : tensor2 B :=
  fmap (M:=list) (fmap (M:=list) f) t.
Definition map3 {A B} (f : A -> B) (t : tensor3 A) : tensor3 B :=
  fmap (M:=list) (map2 f) t.

Definition at2 {A} (t : tensor2 A) (i j : nat) : option A :=
  r ← t !! i; r !! j.
Definition at3 {A} (t : tensor3 A) (b i j : nat) : option A :=
  m ← t !! b; at2 m i j.

(** [t] has shape [[d0, d1, d2]]. *)
Definition has_shape2 {A} (t : tensor2 A) (d0 d1 : nat) : Prop :=
  length t = d0 /\ Forall (fun r => length r = d1) t.
Definition has_shape3 {A} (t : tensor3 A) (d0 d1 d2 : nat) : Prop :=
  length t = d0 /\ Forall (fun m => has_shape2 m d1 d2) t.

(** [torch.ones((d0, d1, d2))] *)
Definition torch_ones (d0 d1 d2 : nat) : tensor3 Q :=
  replicate d0 (replicate d1 (replicate d2 1%Q)).

(** [torch.triu(t, diagonal)]: on the last two dimensions, the entries
    on and above the given diagonal are kept, the others become 0. *)
Definition torch_triu (t : tensor3 Q) (diagonal : Z) : tensor3 Q :=
  fmap (imap (fun i =>
         imap (fun j v =>
                 if diagonal <=? Z.of_nat j - Z.of_nat i then v else 0%Q))) t.

(** [.type(torch.uint8)] of a float: truncation toward zero, modulo 256. *)
Definition to_uint8 (q : Q) : Z := (Z.quot (Qnum q) (Z.pos (Qden q))) mod 256.

(** ** Masking *)

Definition subsequent_mask (size : nat) : tensor3 bool :=
  let attn_shape := (1%nat, size, size) in
  let subsequent_mask :=
    map3 to_uint8
      (torch_triu (torch_ones attn_shape.1.1 attn_shape.1.2 attn_shape.2) 1) in
  map3 (fun v => v =? 0) subsequent_mask.

(** ** Multi-headed attention: construction

    Only the part of the object this development speaks about is kept:
    the head count, the head dimension, the shapes of the four linear
    maps and the dropout rate. *)

Record MultiHeadedAttention : Type := {
  mha_d_k : Z;
  mha_h : Z;
  mha_linears : list (Z * Z);
  mha_dropout_p : Q;
}.

(** [a % b] and [a // b] on Python integers. *)
Definition py_mod (a b : Z) : result Z :=
  if b =? 0 then Raise ZeroDivisionError else Ok (a mod b).
Definition py_floordiv (a b : Z) : result Z :=
  if b =? 0 then Raise ZeroDivisionError else Ok (a / b).

Definition py_assert (b : bool) : result unit :=
  if b then Ok tt else Raise AssertionError.

(** [nn.Linear(in_features, out_features)]: the weight is allocated as
    [torch.empty((out_features, in_features))], which refuses a negative
    dimension.  Only the shape is kept. *)
Definition nn_Linear (in_features out_features : Z) : result (Z * Z) :=
  if (out_features <? 0) || (in_features <? 0) then Raise RuntimeError
  else Ok (in_features, out_features).

(** [clones(module, N)]: [N] copies of the module. *)
Definition clones {A} (module : A) (N : Z) : list A :=
  replicate (Z.to_nat N) module.

(** [nn.Dropout(p)] refuses [p < 0 or p > 1]. *)
Definition nn_Dropout (p : Q) : result Q :=
  if Qle_bool 0 p && Qle_bool p 1 then Ok p else Raise ValueError.

Definition MultiHeadedAttention_init (h d_model : Z) (dropout : Q)
  : result MultiHeadedAttention :=
  r ← py_mod d_model h;
  _ ← py_assert (r =? 0);
  d_k ← py_floordiv d_model h;
  linear ← nn_Linear d_model d_model;
  let linears := clones linear 4 in
  dropout ← nn_Dropout dropout;
  Ok {| mha_d_k := d_k; mha_h := h; mha_linears := linears;
        mha_dropout_p := dropout |}.

(** ** Label smoothing *)

Record LabelSmoothing : Type := {
  ls_padding_idx : Z;
  ls_confidence : Q;
  ls_smoothing : Q;
  ls_size : Z;
  ls_true_dist : option (tensor2 Q);
}.

Definition LabelSmoothing_init (size padding_idx : Z) (smoothing : Q)
  : result LabelSmoothing :=
  Ok {| ls_padding_idx := padding_idx;
        ls_confidence := 1 - smoothing;
        ls_smoothing := smoothing;
        ls_size := size;
        ls_true_dist := None |}.

(** [a / n] for a float [a] and an integer [n]. *)
Definition py_truediv (a : Q) (n : Z) : result Q :=
  if n =? 0 then Raise ZeroDivisionError else Ok (a / inject_Z n)%Q.

(** [t.clone().fill_(v)]: the shape of [t], every entry [v]. *)
Definition fill_ {A B} (t : tensor2 A) (v : B) : tensor2 B :=
  map2 (fun _ => v) t.

(** [t.scatter_(1, index.unsqueeze(1), v)]: row [i] receives [v] in
    column [index[i]].  The index may not have more rows than [t], and
    each column must lie in the row. *)
Fixpoint scatter_1 {A} (t : tensor2 A) (index : list Z) (v : A)
  : result (tensor2 A) :=
  match index, t with
  | [], _ => Ok t
  | k :: index', row :: t' =>
      if (0 <=? k) && (k <? len row) then
        rest ← scatter_1 t' index' v;
        Ok (<[Z.to_nat k := v]> row :: rest)
      else Raise RuntimeError
  | _ :: _, [] => Raise RuntimeError
  end.

(** [t[:, idx] = v] on a tensor with [ncols] columns. *)
Definition setitem_col {A} (t : tensor2 A) (ncols idx : Z) (v : A)
  : result (tensor2 A) :=
  let j := if idx <? 0 then idx + ncols else idx in
  if (0 <=? j) && (j <? ncols)
  then Ok (fmap (fun row => <[Z.to_nat j := v]> row) t)
  else Raise IndexError.

(** [torch.nonzero(b).squeeze()] for a one-dimensional [b]: the
    positions that hold [True], in increasing order. *)
Definition torch_nonzero (b : list bool) : list nat :=
  omap (fun x => x) (imap (fun i v => if v : bool then Some i else None) b).

(** [t.index_fill_(0, index, v)]: the rows listed in [index] are filled
    with [v], in the order given. *)
Fixpoint index_fill_0 {A} (t : tensor2 A) (index : list nat) (v : A)
  : result (tensor2 A) :=
  match index with
  | [] => Ok t
  | i :: index' =>
      if decide (i < length t)%nat
      then index_fill_0 (alter (fmap (fun _ => v)) i t) index' v
      else Raise IndexError
  end.

Section LabelSmoothingForward.
(** The predicted values and the loss are the numerical engine's;
    [criterion] is [nn.KLDivLoss(reduction="sum")]. *)
Context {F L : Type}.
Variable criterion : tensor2 F -> tensor2 Q -> L.

(** [x.size(1) == self.size] is read off the rows of [x]; a list of
    rows does not record the width of a tensor that has no row, so the
    model speaks for batches with at least one row.  [torch.nonzero] returns a two-dimensional tensor, so the test
    [mask.dim() > 0] always passes. *)
Definition LabelSmoothing_forward (self : LabelSmoothing)
    (x : tensor2 F) (target : list Z) : result (L * LabelSmoothing) :=
  _ ← py_assert (forallb (fun row => len row =? ls_size self) x);
  v ← py_truediv (ls_smoothing self) (ls_size self - 2);
  let true_dist := fill_ x v in
  true_dist ← scatter_1 true_dist target (ls_confidence self);
  true_dist ← setitem_col true_dist (ls_size self) (ls_padding_idx self) 0%Q;
  let mask :=
    torch_nonzero (fmap (fun t => t =? ls_padding_idx self) target) in
  true_dist ← index_fill_0 true_dist mask 0%Q;
  let self := {| ls_padding_idx := ls_padding_idx self;
                 ls_confidence := ls_confidence self;
                 ls_smoothing := ls_smoothing self;
                 ls_size := ls_size self;
                 ls_true_dist := Some true_dist |} in
  Ok (criterion x true_dist, self).
End LabelSmoothingForward.

(** ** Learning-rate schedule

    The integers are Python's, without bound; the floats are binary64
    values, modelled by the real numbers they round: every operation
    below is the exact one, so a value stands for the float nearest to
    it, and only what survives rounding is stated about it.  What is
    kept of the floats is their range (an integer converts to a float
    only below [2 ** 1024 - 2 ** 970]) and the complex numbers a power
    of a negative base leads to. *)

Inductive pynum : Type :=
| PyFloat (x : R)
| PyComplex (re im : R).

(** The first integer that is too large to convert to a float. *)
Definition float_overflow : Z := 2 ^ 1024 - 2 ^ 970.

(** [float(n)] as the arithmetic operators apply it to an integer
    operand. *)
Definition py_float (n : Z) : result R :=
  if Z.abs n <? float_overflow then Ok (IZR n) else Raise OverflowError.

(** A float result, which must lie in the range of the floats. *)
Definition py_float_result (r : R) : result pynum :=
  if Rlt_dec (Rabs r) (IZR float_overflow) then Ok (PyFloat r)
  else Raise OverflowError.

Definition is_integer (e : Q) : bool := Qnum e mod Z.pos (Qden e) =? 0.

(** [b ** e] for an integer [b] and a float [e], here a binary
    fraction: both operands are converted first; then come the cases of
    [float.__pow__].  A negative base with a fractional exponent gives
    the complex number of modulus [|b| ** e] and argument [pi * e]. *)
Definition py_pow (b : Z) (e : Q) : result pynum :=
  x ← py_float b;
  if Qeq_bool e 0 then Ok (PyFloat 1)
  else if b =? 0 then
    if Qle_bool 0 e then Ok (PyFloat 0) else Raise ZeroDivisionError
  else if 0 <? b then py_float_result (Rpower x (Q2R e))
  else if is_integer e then
    py_float_result
      ((if Z.odd (Qnum e / Z.pos (Qden e)) then -1 else 1)
       * Rpower (- x) (Q2R e))%R
  else
    Ok (PyComplex (Rpower (- x) (Q2R e) * cos (PI * Q2R e))
                  (Rpower (- x) (Q2R e) * sin (PI * Q2R e)))%R.

(** [a * b] on floats and complex numbers. *)
Definition py_mul (a b : pynum) : pynum :=
  match a, b with
  | PyFloat x, PyFloat y => PyFloat (x * y)
  | PyFloat x, PyComplex re im => PyComplex (x * re - 0 * im) (x * im + 0 * re)
  | PyComplex re im, PyFloat y => PyComplex (re * y - im * 0) (re * 0 + im * y)
  | PyComplex re1 im1, PyComplex re2 im2 =>
      PyComplex (re1 * re2 - im1 * im2) (re1 * im2 + im1 * re2)
  end%R.

(** [n * b] for an integer [n]. *)
Definition py_mul_int (n : Z) (b : pynum) : result pynum :=
  x ← py_float n;
  Ok (py_mul (PyFloat x) b).

(** [min(a, b)]: [b] when [b < a], else [a]; complex numbers are not
    ordered. *)
Definition py_min (a b : pynum) : result pynum :=
  match a, b with
  | PyFloat x, PyFloat y => Ok (PyFloat (if Rlt_dec y x then y else x))
  | _, _ => Raise TypeError
  end.

Definition rate (step model_size : Z) (factor : R) (warmup : Z)
  : result pynum :=
  let step := if step =? 0 then 1 else step in
  a ← py_pow model_size (-1 # 2);
  b ← py_pow step (-1 # 2);
  c ← py_pow warmup (-3 # 2);
  d ← py_mul_int step c;
  m ← py_min b d;
  Ok (py_mul (PyFloat factor) (py_mul a m)).

(** ** Batches *)

Record BatchTarget : Type := {
  bt_tgt : tensor2 Z;
  bt_tgt_y : tensor2 Z;
  bt_tgt_mask : tensor3 bool;
  bt_ntokens : Z;
}.

(** The target attributes exist only when [tgt] was given. *)
Record Batch : Type := {
  src : tensor2 Z;
  src_mask : tensor3 bool;
  batch_target : option BatchTarget;
}.

Fixpoint traverse {A B} (f : A -> result B) (l : list A) : result (list B) :=
  match l with
  | [] => Ok []
  | a :: l' => b ← f a; bs ← traverse f l'; Ok (b :: bs)
  end.

(** Broadcasting along one dimension: equal sizes, or one of them 1. *)
Definition broadcast {A B C} (f : A -> B -> result C) (l1 : list A) (l2 : list B)
  : result (list C) :=
  if decide (length l1 = length l2)
  then traverse (fun p => f p.1 p.2) (zip l1 l2)
  else match l1, l2 with
       | [a], _ => traverse (f a) l2
       | _, [b] => traverse (fun a => f a b) l1
       | _, _ => Raise RuntimeError
       end.

(** [t1 & t2] on three-dimensional boolean tensors. *)
Definition and3 (t1 t2 : tensor3 bool) : result (tensor3 bool) :=
  broadcast (broadcast (broadcast (fun a b => Ok (a && b)))) t1 t2.

(** [t != pad] and [.unsqueeze(-2)]. *)
Definition ne2 (t : tensor2 Z) (pad : Z) : tensor2 bool :=
  map2 (fun v => negb (v =? pad)) t.
Definition unsqueeze_m2 {A} (t : tensor2 A) : tensor3 A :=
  fmap (fun row => [row]) t.

(** [t.size(-1)], read off the first row. *)
Definition size_last {A} (t : tensor2 A) : nat :=
  match t with
  | row :: _ => length row
  | [] => 0
  end.

Definition make_std_mask (tgt : tensor2 Z) (pad : Z) : result (tensor3 bool) :=
  let tgt_mask := unsqueeze_m2 (ne2 tgt pad) in
  and3 tgt_mask (subsequent_mask (size_last tgt)).

(** [(t != pad).sum()] *)
Definition count_ne (t : tensor2 Z) (pad : Z) : Z :=
  len (filter (fun b => b = true) (concat (ne2 t pad))).

Definition Batch_init (src : tensor2 Z) (tgt : option (tensor2 Z)) (pad : Z)
  : result Batch :=
  let src_mask := unsqueeze_m2 (ne2 src pad) in
  match tgt with
  | None => Ok {| src := src; src_mask := src_mask; batch_target := None |}
  | Some tgt =>
      let tgt_in := fmap (fun row => take (length row - 1) row) tgt in
      let tgt_y := fmap (drop 1) tgt in
      tgt_mask ← make_std_mask tgt_in pad;
      let ntokens := count_ne tgt_y pad in
      Ok {| src := src; src_mask := src_mask;
            batch_target := Some {| bt_tgt := tgt_in; bt_tgt_y := tgt_y;
                                    bt_tgt_mask := tgt_mask;
                                    bt_ntokens := ntokens |} |}
  end.

Definition batch_attr {A} (f : BatchTarget -> A) (batch : Batch) : result A :=
  match batch_target batch with
  | Some t => Ok (f t)
  | None => Raise AttributeError
  end.

(** ** Calls into the numerical engine

    The model, the loss, the optimizer and the scheduler belong to the
    autograd engine.  Its state (parameters, gradients, optimizer and
    scheduler state) is an abstract world [W]; a call is a transition of
    the world, and every call is recorded, in order, in [calls]. *)

Section Machine.
Context {W E : Type}.

Record machine : Type := { world : W; calls : list E }.

Definition M (A : Type) : Type := machine -> result A * machine.

Definition M_ret {A} (a : A) : M A := fun s => (Ok a, s).

Definition M_bind {A B} (k : A -> M B) (m : M A) : M B :=
  fun s =>
    match m s with
    | (Ok a, s') => k a s'
    | (Raise e, s') => (Raise e, s')
    end.

(** A pure computation that may raise. *)
Definition lift {A} (r : result A) : M A := fun s => (r, s).

(** An engine call [op], recorded as [ev] of its result. *)
Definition call {A} (op : W -> A * W) (ev : A -> E) : M A :=
  fun s =>
    let (a, w) := op (world s) in
    (Ok a, {| world := w; calls := calls s ++ [ev a] |}).
End Machine.
Arguments machine : clear implicits.
Arguments M : clear implicits.

#[global] Instance M_MRet {W E} : MRet (M W E) := @M_ret W E.
#[global] Instance M_MBind {W E} : MBind (M W E) := @M_bind W E.

(** ** Training loop *)

Record TrainState : Type := {
  step : Z;
  accum_step : Z;
  samples : Z;
  tokens : Z;
}.

(** The capability set [run_epoch] needs of its optimizer and of its
    scheduler. *)
Record Optimizer (W : Type) : Type := {
  optimizer_step : W -> unit * W;
  optimizer_zero_grad : bool -> W -> unit * W;
  optimizer_lr : W -> Q;
}.
Arguments optimizer_step {W}.
Arguments optimizer_zero_grad {W}.
Arguments optimizer_lr {W}.

Record Scheduler (W : Type) : Type := {
  scheduler_step : W -> unit * W;
}.
Arguments scheduler_step {W}.

Definition DummyOptimizer {W} : Optimizer W := {|
  optimizer_step := fun w => (tt, w);
  optimizer_zero_grad := fun _ w => (tt, w);
  optimizer_lr := fun _ => 0%Q;
|}.

Definition DummyScheduler {W} : Scheduler W := {|
  scheduler_step := fun w => (tt, w);
|}.

Inductive epoch_call (Out LossNode : Type) : Type :=
| CallForward (src tgt : tensor2 Z) (src_mask tgt_mask : tensor3 bool)
| CallLossCompute (out : Out) (tgt_y : tensor2 Z) (norm : Z) (loss : Q)
| CallBackward (loss_node : LossNode)
| CallOptimizerStep
| CallZeroGrad
| CallSchedulerStep
| CallPrint (i n_accum : Z).
Arguments CallForward {Out LossNode}.
Arguments CallLossCompute {Out LossNode}.
Arguments CallBackward {Out LossNode}.
Arguments CallOptimizerStep {Out LossNode}.
Arguments CallZeroGrad {Out LossNode}.
Arguments CallSchedulerStep {Out LossNode}.
Arguments CallPrint {Out LossNode}.

(** A float that may be [inf] or [nan]. *)
Inductive pyfloat : Type :=
| Finite (q : Q)
| NonFinite.

(** The local variables of [run_epoch], with the train state. *)
Record epoch_locals : Type := {
  l_total_tokens : Z;
  l_total_loss : Q;
  l_tokens : Z;
  l_n_accum : Z;
  l_train_state : TrainState;
}.

Section RunEpoch.
Context {W Out LossNode : Type}.
Variable model_forward :
  tensor2 Z -> tensor2 Z -> tensor3 bool -> tensor3 bool -> W -> Out * W.
Variable loss_compute :
  Out -> tensor2 Z -> Z -> W -> (Q * LossNode) * W.
Variable backward : LossNode -> W -> unit * W.
Variable optimizer : Optimizer W.
Variable scheduler : Scheduler W.

Definition is_train (mode : string) : bool :=
  String.eqb mode "train" || String.eqb mode "train+log".

(** One iteration of [for i, batch in enumerate(data_iter)]. *)
Definition run_epoch_body (mode : string) (accum_iter : Z)
    (i : Z) (batch : Batch) (l : epoch_locals)
  : M W (epoch_call Out LossNode) epoch_locals :=
  tgt ← lift (batch_attr bt_tgt batch);
  tgt_mask ← lift (batch_attr bt_tgt_mask batch);
  out ← call (model_forward (src batch) tgt (src_mask batch) tgt_mask)
             (fun _ => CallForward (src batch) tgt (src_mask batch) tgt_mask);
  tgt_y ← lift (batch_attr bt_tgt_y batch);
  ntokens ← lift (batch_attr bt_ntokens batch);
  r ← call (loss_compute out tgt_y ntokens)
           (fun r => CallLossCompute out tgt_y ntokens r.1);
  let loss := r.1 in
  let loss_node := r.2 in
  l ← (if is_train mode then
         _ ← call (backward loss_node) (fun _ => CallBackward loss_node);
         let ts := l_train_state l in
         let ts := {| step := step ts + 1;
                      accum_step := accum_step ts;
                      samples := samples ts + len (src batch);
                      tokens := tokens ts + ntokens |} in
         m ← lift (py_mod i accum_iter);
         l ← (if m =? 0 then
                _ ← call (optimizer_step optimizer)
                         (fun _ => CallOptimizerStep);
                _ ← call (optimizer_zero_grad optimizer true)
                         (fun _ => CallZeroGrad);
                mret {| l_total_tokens := l_total_tokens l;
                        l_total_loss := l_total_loss l;
                        l_tokens := l_tokens l;
                        l_n_accum := l_n_accum l + 1;
                        l_train_state :=
                          {| step := step ts;
                             accum_step := accum_step ts + 1;
                             samples := samples ts;
                             tokens := tokens ts |} |}
              else
                mret {| l_total_tokens := l_total_tokens l;
                        l_total_loss := l_total_loss l;
                        l_tokens := l_tokens l;
                        l_n_accum := l_n_accum l;
                        l_train_state := ts |});
         _ ← call (scheduler_step scheduler) (fun _ => CallSchedulerStep);
         mret l
       else mret l);
  let l := {| l_total_tokens := l_total_tokens l + ntokens;
              l_total_loss := (l_total_loss l + loss)%Q;
              l_tokens := l_tokens l + ntokens;
              l_n_accum := l_n_accum l;
              l_train_state := l_train_state l |} in
  if (i mod 40 =? 1) && is_train mode then
    _ ← call (fun w => (optimizer_lr optimizer w, w))
             (fun _ => CallPrint i (l_n_accum l));
    mret {| l_total_tokens := l_total_tokens l;
            l_total_loss := l_total_loss l;
            l_tokens := 0;
            l_n_accum := l_n_accum l;
            l_train_state := l_train_state l |}
  else mret l.

Fixpoint run_epoch_loop (mode : string) (accum_iter : Z)
    (i : Z) (data_iter : list Batch) (l : epoch_locals)
  : M W (epoch_call Out LossNode) epoch_locals :=
  match data_iter with
  | [] => mret l
  | batch :: data_iter' =>
      l ← run_epoch_body mode accum_iter i batch l;
      run_epoch_loop mode accum_iter (i + 1) data_iter' l
  end.

(** [total_loss / total_tokens]: both are the integer 0 when there was
    no batch; otherwise they are tensors, whose quotient never raises. *)
Definition mean_loss (data_iter : list Batch) (l : epoch_locals)
  : result pyfloat :=
  match data_iter with
  | [] => Raise ZeroDivisionError
  | _ :: _ =>
      if l_total_tokens l =? 0 then Ok NonFinite
      else Ok (Finite (l_total_loss l / inject_Z (l_total_tokens l))%Q)
  end.

Definition run_epoch (data_iter : list Batch) (mode : string)
    (accum_iter : Z) (train_state : TrainState)
  : M W (epoch_call Out LossNode) (pyfloat * TrainState) :=
  let l := {| l_total_tokens := 0; l_total_loss := 0%Q; l_tokens := 0;
              l_n_accum := 0; l_train_state := train_state |} in
  l ← run_epoch_loop mode accum_iter 0 data_iter l;
  q ← lift (mean_loss data_iter l);
  mret (q, l_train_state l).
End RunEpoch.

(** ** Loss computation *)

Section SimpleLossCompute.
(** [generator] and [criterion] are fields of the object; the value of
    the criterion is a float. *)
Context {X P : Type}.
Variable generator : X -> P.
Variable criterion : P -> tensor2 Z -> Q.

(** Returns [(sloss.data * norm, sloss)]: the loss, and the node
    [backward] is called on. *)
(** A tensor divided by 0 is [inf] or [nan], and that times 0 is
    [nan]: nothing is raised. *)
Definition SimpleLossCompute_call (x : X) (y : tensor2 Z) (norm : Z)
  : pyfloat * pyfloat :=
  let x := generator x in
  if norm =? 0 then (NonFinite, NonFinite)
  else
    let sloss := (criterion x y / inject_Z norm)%Q in
    (Finite (sloss * inject_Z norm)%Q, Finite sloss).
End SimpleLossCompute.

(** ** Greedy decoding *)

Inductive decode_call (Src SrcMask Memory Out : Type) : Type :=
| CallEncode (src : Src) (src_mask : SrcMask) (memory : Memory)
| CallDecode (memory : Memory) (src_mask : SrcMask)
             (ys : tensor2 Z) (ys_mask : tensor3 bool) (out : Out)
| CallGenerator (out : Out) (prob : tensor3 Q).
Arguments CallEncode {Src SrcMask Memory Out}.
Arguments CallDecode {Src SrcMask Memory Out}.
Arguments CallGenerator {Src SrcMask Memory Out}.

(** [torch.max(t, dim=1)] on one row: the position of the first maximal
    value. *)
Fixpoint argmax_from (best : Q) (best_i : nat) (i : nat) (l : list Q) : nat :=
  match l with
  | [] => best_i
  | x :: l' =>
      if Qlt_le_dec best x
      then argmax_from x i (S i) l'
      else argmax_from best best_i (S i) l'
  end.

Definition torch_argmax (l : list Q) : result Z :=
  match l with
  | [] => Raise IndexError
  | x :: l' => Ok (Z.of_nat (argmax_from x 0 1 l'))
  end.

(** [torch.max(prob[:, -1], dim=1)[1].data[0]] *)
Definition next_word_of (prob : tensor3 Q) : result Z :=
  last_rows ← traverse (fun m => py_getitem m (-1)) prob;
  next_word ← traverse torch_argmax last_rows;
  py_getitem next_word 0.

(** [torch.cat([ys, [[w]]], dim=1)] for one-row [ys]. *)
Definition cat_dim1 (ys : tensor2 Z) (w : Z) : result (tensor2 Z) :=
  match ys with
  | [row] => Ok [row ++ [w]]
  | _ => Raise RuntimeError
  end.

Section GreedyDecode.
Context {W Src SrcMask Memory Out : Type}.
Variable model_encode : Src -> SrcMask -> W -> Memory * W.
Variable model_decode :
  Memory -> SrcMask -> tensor2 Z -> tensor3 bool -> W -> Out * W.
Variable model_generator : Out -> W -> tensor3 Q * W.

(** One iteration of [for i in range(max_len - 1)]. *)
Definition greedy_decode_body (memory : Memory) (src_mask : SrcMask)
    (pad : Z) (ys : tensor2 Z)
  : M W (decode_call Src SrcMask Memory Out) (tensor2 Z) :=
  let ys_mask := ne2 ys pad in
  ys_mask ← lift (and3 [ys_mask] (subsequent_mask (size_last ys)));
  out ← call (model_decode memory src_mask ys ys_mask)
             (CallDecode memory src_mask ys ys_mask);
  prob ← call (model_generator out) (CallGenerator out);
  next_word ← lift (next_word_of prob);
  lift (cat_dim1 ys next_word).

Fixpoint greedy_decode_loop (n : nat) (memory : Memory) (src_mask : SrcMask)
    (pad : Z) (ys : tensor2 Z)
  : M W (decode_call Src SrcMask Memory Out) (tensor2 Z) :=
  match n with
  | O => mret ys
  | S n' =>
      ys ← greedy_decode_body memory src_mask pad ys;
      greedy_decode_loop n' memory src_mask pad ys
  end.

Definition greedy_decode (src : Src) (src_mask : SrcMask) (max_len : Z)
    (start_symbol pad : Z)
  : M W (decode_call Src SrcMask Memory Out) (tensor2 Z) :=
  memory ← call (model_encode src src_mask) (CallEncode src src_mask);
  let ys := [[start_symbol]] in
  greedy_decode_loop (Z.to_nat (max_len - 1)) memory src_mask pad ys.
End GreedyDecode.

(** ** Vocabulary of the properties *)

(** *** Elementary-school addition *)

Definition is_digit (c : pychar) : Prop := 48 <= c <= 57.

(** The character [sum_two_str] writes for two digit characters: the
    digit of the sum up to 9, and the letter at distance [sum - 9] after
    ['A'] beyond. *)
Definition digit_sum_char (c1 c2 : pychar) : pychar :=
  let d := (c1 - 48) + (c2 - 48) in
  if d <=? 9 then 48 + d else 65 + (d - 9).

(** *** Label smoothing *)

Definition Qsum (l : list Q) : Q := foldr Qplus 0%Q l.

(** *** Learning-rate schedule *)

(** The order of two rates is stated for steps and warmup counts below
    [2 ** 31]: there the rates of two different steps, and the two
    branches of [min] away from the warmup step, differ by far more
    than a float operation rounds, so that the order of the real values
    is the order of the floats.  (Near [2 ** 53] and above, rounding
    can exchange them.) *)
Definition step_limit : Z := 2 ^ 31.

(** *** Training loop *)

Inductive call_kind : Set :=
| KForward | KLossCompute | KBackward
| KOptimizerStep | KZeroGrad | KSchedulerStep | KPrint.

Definition kind_of {Out LossNode} (c : epoch_call Out LossNode) : call_kind :=
  match c with
  | CallForward _ _ _ _ => KForward
  | CallLossCompute _ _ _ _ => KLossCompute
  | CallBackward _ => KBackward
  | CallOptimizerStep => KOptimizerStep
  | CallZeroGrad => KZeroGrad
  | CallSchedulerStep => KSchedulerStep
  | CallPrint _ _ => KPrint
  end.

(** The loss a [loss_compute] call returned. *)
Definition call_loss {Out LossNode} (c : epoch_call Out LossNode) : option Q :=
  match c with
  | CallLossCompute _ _ _ loss => Some loss
  | _ => None
  end.

Definition batch_ntokens (batch : Batch) : Z :=
  from_option bt_ntokens 0 (batch_target batch).

(** The calls of one iteration of [run_epoch], by kind. *)
Definition epoch_kinds (mode : string) (accum_iter i : Z) : list call_kind :=
  [KForward; KLossCompute]
  ++ (if is_train mode
      then [KBackward]
           ++ (if i mod accum_iter =? 0 then [KOptimizerStep; KZeroGrad] else [])
           ++ [KSchedulerStep]
      else [])
  ++ (if (i mod 40 =? 1) && is_train mode then [KPrint] else []).

(** The calls of [n] iterations, from index [i] on. *)
Fixpoint epoch_kinds_from (mode : string) (accum_iter i : Z) (n : nat)
  : list call_kind :=
  match n with
  | O => []
  | S n' => epoch_kinds mode accum_iter i
            ++ epoch_kinds_from mode accum_iter (i + 1) n'
  end.

(** The train state after the iteration on [batch], at index [i]. *)
Definition next_train_state (mode : string) (accum_iter i : Z) (batch : Batch)
    (ts : TrainState) : TrainState :=
  if is_train mode then
    {| step := step ts + 1;
       accum_step := accum_step ts + (if i mod accum_iter =? 0 then 1 else 0);
       samples := samples ts + len (src batch);
       tokens := tokens ts + batch_ntokens batch |}
  else ts.

Fixpoint train_state_after (mode : string) (accum_iter i : Z)
    (data_iter : list Batch) (ts : TrainState) : TrainState :=
  match data_iter with
  | [] => ts
  | batch :: data_iter' =>
      train_state_after mode accum_iter (i + 1) data_iter'
        (next_train_state mode accum_iter i batch ts)
  end.

Definition sum_ntokens (data_iter : list Batch) : Z :=
  foldr (fun batch n => batch_ntokens batch + n) 0 data_iter.

(** A ledger of gradients, to observe accumulation: [backward] adds the
    gradient of a loss node to the pending sum, [optimizer.step] applies
    the pending sum, [zero_grad] clears it.  A loss node is named by the
    second source token of its batch. *)
Record ledger : Type := { pending : list Z; applied : list (list Z) }.

Definition ledger_forward (src tgt : tensor2 Z) (src_mask tgt_mask : tensor3 bool)
    (w : ledger) : Z * ledger :=
  (default 0 (at2 src 0 1), w).

Definition ledger_loss_compute (out : Z) (tgt_y : tensor2 Z) (norm : Z)
    (w : ledger) : (Q * Z) * ledger :=
  ((inject_Z norm, out), w).

Definition ledger_backward (node : Z) (w : ledger) : unit * ledger :=
  (tt, {| pending := pending w ++ [node]; applied := applied w |}).

Definition ledger_optimizer : Optimizer ledger := {|
  optimizer_step := fun w =>
    (tt, {| pending := pending w; applied := applied w ++ [pending w] |});
  optimizer_zero_grad := fun _ w =>
    (tt, {| pending := []; applied := applied w |});
  optimizer_lr := fun _ => 1%Q;
|}.

Definition ledger_scheduler : Scheduler ledger := {|
  scheduler_step := fun w => (tt, w);
|}.

(** The batch of the single pair ["^k$"], ["^k$"]. *)
Definition digit_batch (k : Z) : result Batch :=
  Batch_init [[1; 6 + k; 2]] (Some [[1; 6 + k; 2]]) pad_symbol.

#[global] Instance call_kind_eq_dec : EqDecision call_kind.
Proof. solve_decision. Defined.

Definition count_kind (k : call_kind) (l : list call_kind) : nat :=
  length (filter (fun x => x = k) l).

(** *** Greedy decoding *)

(** The causal-plus-padding mask of a one-row output [ys]. *)
Definition decoder_mask (ys : list Z) (pad : Z) : tensor3 bool :=
  [ (fun m_i => zip_with andb (fmap (fun v => negb (v =? pad)) ys) m_i)
      <$> hd [] (subsequent_mask (length ys)) ].

(** [w] is the position of the first maximal value of [row]: no value
    of the row is above the one at [w], and every value before [w] is
    below it. *)
Definition is_first_max (row : list Q) (w : Z) : Prop :=
  0 <= w
  /\ exists q,
       row !! Z.to_nat w = Some q
       /\ (forall j q', row !! j = Some q' -> (q' <= q)%Q)
       /\ (forall j q', (j < Z.to_nat w)%nat -> row !! j = Some q' ->
                        (q' < q)%Q).

(** [w] is the argmax over the vocabulary at the last position of the
    first sequence of [prob]. *)
Definition argmax_at_last (prob : tensor3 Q) (w : Z) : Prop :=
  exists m row,
    prob !! 0%nat = Some m /\ last m = Some row /\ is_first_max row w.

(** What [torch.max(prob[:, -1], dim=1)[1].data[0]] needs of [prob]: a
    sequence, and in every sequence a last position with a class. *)
Definition readable (prob : tensor3 Q) : Prop :=
  prob <> []
  /\ Forall (fun m => exists row, last m = Some row /\ row <> []) prob.

(** One extension step: a [decode] call on the current output and its
    mask, with the cached memory, then a [generator] call whose argmax
    at the last position is the next word. *)
Definition is_step {Src SrcMask Memory Out} (memory : Memory)
    (src_mask : SrcMask) (pad : Z) (ys : list Z) (next_word : Z)
    (step : list (decode_call Src SrcMask Memory Out)) : Prop :=
  exists out prob,
    step = [CallDecode memory src_mask [ys] (decoder_mask ys pad) out;
            CallGenerator out prob]
    /\ argmax_at_last prob next_word.

(** A model that always emits the end symbol, token 2. *)
Definition end_encode (src : tensor2 Z) (src_mask : tensor3 bool) (w : unit)
  : unit * unit := (tt, w).
Definition end_decode (memory : unit) (src_mask : tensor3 bool)
    (ys : tensor2 Z) (ys_mask : tensor3 bool) (w : unit) : unit * unit :=
  (tt, w).
Definition end_generator (out : unit) (w : unit) : tensor3 Q * unit :=
  ([[[0; 0; 1]]]%Q, w).

(** ** Further code: data preparation *)

(** ** Batching token sequences *)

(** [max(l)]: [ValueError] on the empty list. *)
Definition py_max (l : list Z) : result Z :=
  match l with
  | [] => Raise ValueError
  | x :: l' => Ok (foldl Z.max x l')
  end.

Definition padding_batch (batch : list (list Z)) : result (tensor2 Z) :=
  length ← py_max (len <$> batch);
  traverse (fun item =>
              s ← to_token (ch "^");
              e ← to_token (ch "$");
              Ok ([s] ++ item ++ [e]
                  ++ replicate (Z.to_nat (length - len item)) pad_symbol))
           batch.

Definition generate_input_batch (text padding : pystr) : result (tensor2 Z) :=
  s ← to_token (ch "^");
  let res := [s] in
  toks ← to_tokens text;
  e ← to_token (ch "$");
  let res := res ++ (toks ++ [e] ++ ((fun _ => pad_symbol) <$> padding)) in
  Ok [res].

(** ** Arithmetic pairs *)

(** [str(n)] for an integer: its decimal digits, after ['-'] when
    negative. *)
Fixpoint uint_chars (d : Decimal.uint) : pystr :=
  match d with
  | Decimal.Nil => []
  | Decimal.D0 d => ch "0" :: uint_chars d
  | Decimal.D1 d => ch "1" :: uint_chars d
  | Decimal.D2 d => ch "2" :: uint_chars d
  | Decimal.D3 d => ch "3" :: uint_chars d
  | Decimal.D4 d => ch "4" :: uint_chars d
  | Decimal.D5 d => ch "5" :: uint_chars d
  | Decimal.D6 d => ch "6" :: uint_chars d
  | Decimal.D7 d => ch "7" :: uint_chars d
  | Decimal.D8 d => ch "8" :: uint_chars d
  | Decimal.D9 d => ch "9" :: uint_chars d
  end.

Definition py_str (n : Z) : pystr :=
  match Z.to_int n with
  | Decimal.Pos d => uint_chars d
  | Decimal.Neg d => ch "-" :: uint_chars d
  end.

Definition operators_function : list (option (Z -> Z -> Z)) :=
  [None; None; Some (fun x y => x + y); Some (fun x y => x - y); None].

(** [f(x, y)]: calling [None] is a [TypeError]. *)
Definition py_call2 (f : option (Z -> Z -> Z)) (x y : Z) : result Z :=
  match f with
  | Some f => Ok (f x y)
  | None => Raise TypeError
  end.

(** The operator is a [str] or an index into [operators]. *)
Definition generate_one_pair (left1 left2 : Z) (operator : pystr + Z)
  : result (pystr * pystr) :=
  p ← match operator with
      | inl s =>
          operator_index ← match s with
                           | [c] => py_index operators c
                           | _ => Raise ValueError
                           end;
          Ok (operator_index, s)
      | inr i =>
          c ← py_getitem operators i;
          Ok (i, [c])
      end;
  let operator_index := p.1 in
  let operator := p.2 in
  f ← py_getitem operators_function operator_index;
  target ← py_call2 f left1 left2;
  let text := reverse (py_str left1) ++ operator
              ++ reverse (py_str left2) ++ str "=" in
  let target_text := reverse (py_str target) in
  Ok (text, target_text).

Definition generate_one_pair1 (left1 left2 : Z) : result (pystr * pystr) :=
  let left1 := py_str left1 in
  let left2 := py_str left2 in
  r ← sum_two_str left1 left2;
  let text1 := r.1.1 in
  let text2 := r.1.2 in
  let target := r.2 in
  let text := text1 ++ str "+" ++ text2 ++ str "=" in
  Ok (text, target).

(** *** Counters of a training epoch *)

(** The number of indices [j] among [i, i + 1, ..., i + n - 1] with
    [j % accum_iter == 0]. *)
Fixpoint opt_steps (accum_iter i : Z) (n : nat) : Z :=
  match n with
  | O => 0
  | S n' => (if i mod accum_iter =? 0 then 1 else 0)
            + opt_steps accum_iter (i + 1) n'
  end.

Definition sum_samples (data_iter : list Batch) : Z :=
  foldr (fun batch n => len (src batch) + n) 0 data_iter.

(** ** Datasets over a range

    The random module is an engine of its own: its state is the world,
    each draw a recorded call.  A generator is modelled by the list of
    the batches it yields. *)

Inductive rand_call : Type :=
| CallRandom (r : Q)
| CallRandrange (start stop value : Z).

(** The batches under construction and the batches yielded so far. *)
Record range_acc : Type := {
  acc_src_batch : list (list Z);
  acc_tgt_batch : list (list Z);
  acc_yielded : list Batch;
}.

Section DatasetRange.
Context {G : Type}.
(** [random.random()] and [random.randrange(start, stop)] on a
    non-empty range. *)
Variable random : G -> Q * G.
Variable randrange : Z -> Z -> G -> Z * G.

Definition py_randrange (start stop : Z) : M G rand_call Z :=
  if stop <=? start then lift (Raise ValueError)
  else call (randrange start stop) (CallRandrange start stop).

Fixpoint randrange_items (start stop : Z) (n : nat)
  : M G rand_call (list Z) :=
  match n with
  | O => mret []
  | S n' =>
      x ← py_randrange start stop;
      xs ← randrange_items start stop n';
      mret (x :: xs)
  end.

Definition items_range_generate (start stop : Z) (count : option Z)
  : M G rand_call (list Z) :=
  match count with
  | Some count => randrange_items start stop (Z.to_nat count)
  | None => mret (seqZ start (stop - start))
  end.

(** The body of the inner loop of [dataset_range]. *)
Definition dataset_range_body (batch_size : Z) (sample : Q) (i j : Z)
    (acc : range_acc) : M G rand_call range_acc :=
  r ← call random CallRandom;
  if Qlt_le_dec r sample then mret acc
  else
    p ← lift (generate_one_pair1 i j);
    let text := p.1 in
    let target := p.2 in
    s ← lift (to_tokens text);
    let src_batch := acc_src_batch acc ++ [s] in
    t ← lift (to_tokens target);
    let tgt_batch := acc_tgt_batch acc ++ [t] in
    if len src_batch =? batch_size then
      data ← lift (padding_batch src_batch);
      tgt_data ← lift (padding_batch tgt_batch);
      batch ← lift (Batch_init data (Some tgt_data) 0);
      mret {| acc_src_batch := []; acc_tgt_batch := [];
              acc_yielded := acc_yielded acc ++ [batch] |}
    else
      mret {| acc_src_batch := src_batch; acc_tgt_batch := tgt_batch;
              acc_yielded := acc_yielded acc |}.

Fixpoint dataset_range_inner (batch_size : Z) (sample : Q) (i : Z)
    (y_items : list Z) (acc : range_acc) : M G rand_call range_acc :=
  match y_items with
  | [] => mret acc
  | j :: y_items' =>
      acc ← dataset_range_body batch_size sample i j acc;
      dataset_range_inner batch_size sample i y_items' acc
  end.

Fixpoint dataset_range_outer (batch_size : Z) (sample : Q)
    (x_items y_items : list Z) (acc : range_acc) : M G rand_call range_acc :=
  match x_items with
  | [] => mret acc
  | i :: x_items' =>
      acc ← dataset_range_inner batch_size sample i y_items acc;
      dataset_range_outer batch_size sample x_items' y_items acc
  end.

Definition dataset_range (start stop batch_size : Z) (sample : Q)
    (count : option Z) (x_items y_items : option (list Z))
  : M G rand_call (list Batch) :=
  let acc := {| acc_src_batch := []; acc_tgt_batch := [];
                acc_yielded := [] |} in
  x_items ← match x_items with
           | None => items_range_generate start stop count
           | Some l => mret l
           end;
  y_items ← match y_items with
           | None => items_range_generate start stop count
           | Some l => mret l
           end;
  acc ← dataset_range_outer batch_size sample x_items y_items acc;
  mret (acc_yielded acc).
End DatasetRange.

(** A source of random numbers that always draws 0. *)
Definition zero_random (g : unit) : Q * unit := (0%Q, g).
Definition first_randrange (start stop : Z) (g : unit) : Z * unit := (start, g).

(** A batch [dataset_range] may yield: [batch_size] source rows and as
    many target rows. *)
Definition full_batch (batch_size : Z) (batch : Batch) : Prop :=
  len (src batch) = batch_size
  /\ exists bt, batch_target batch = Some bt
                /\ len (bt_tgt bt) = batch_size
                /\ len (bt_tgt_y bt) = batch_size.

(** What the loops of [dataset_range] keep: the two pending lists have
    one length, below [batch_size], and every yielded batch is full. *)
Definition range_inv (batch_size : Z) (acc : range_acc) : Prop :=
  length (acc_src_batch acc) = length (acc_tgt_batch acc)
  /\ len (acc_src_batch acc) < batch_size
  /\ Forall (full_batch batch_size) (acc_yielded acc).

(** The pairs kept so far. *)
Definition range_total (batch_size : Z) (acc : range_acc) : Z :=
  len (acc_yielded acc) * batch_size + len (acc_src_batch acc).

(** * Properties *)

(** ** Tokenizer *)

Lemma voca_size_eq : voca_size = 26.
Proof. reflexivity. Qed.

Lemma to_token_alphabet :
  Forall (fun c => to_token c ≫= from_token = Ok c) alphabet.
Proof. repeat constructor. Qed.

Lemma from_token_ids :
  Forall (fun n => from_token (Z.of_nat n) ≫= to_token = Ok (Z.of_nat n))
         (seq 0 26).
Proof. repeat constructor. Qed.

(** C2. Round trip of the tokenizer: for every character [c] of the
    fixed alphabet, [from_token(to_token(c)) == c], and for every id
    [t] in [[0, voca_size)], [to_token(from_token(t)) == t]. *)
Theorem tokenizer_round_trip (c : pychar) (t : Z) :
  c ∈ alphabet -> 0 <= t < voca_size ->
  to_token c ≫= from_token = Ok c /\ from_token t ≫= to_token = Ok t.
Proof.
  intros Hc Ht. split.
  - exact (proj1 (Forall_forall _ _) to_token_alphabet c Hc).
  - rewrite voca_size_eq in Ht.
    assert (Hn : (Z.to_nat t) ∈ seq 0 26) by (apply elem_of_seq; lia).
    pose proof (proj1 (Forall_forall _ _) from_token_ids _ Hn) as H.
    cbv beta in H. rewrite Z2Nat.id in H by lia. exact H.
Qed.

Lemma tokenizer_round_trip_witness :
  to_token (ch "A") ≫= from_token = Ok (ch "A")
  /\ from_token 16 ≫= to_token = Ok 16.
Proof.
  apply (tokenizer_round_trip (ch "A") 16).
  - apply list_elem_of_In. vm_compute. tauto.
  - change voca_size with 26. lia.
Defined.

Lemma py_in_index (l : list Z) (x : Z) :
  py_in x l = true -> exists i, py_index l x = Ok i.
Proof.
  induction l as [|y l IH]; simpl; [discriminate|].
  rewrite (Z.eqb_sym x y). destruct (y =? x); [eauto|].
  simpl. intros H. destruct (IH H) as [i ->]. simpl. eauto.
Qed.

(** What [to_token] does outside the operators: it raises exactly from
    ['K'] (code point 75) on, and returns an integer below. *)
Lemma to_token_raises_iff (c : pychar) :
  (exists e, to_token c = Raise e)
  <-> py_in c operators = false /\ 75 <= c.
Proof.
  unfold to_token.
  destruct (py_in c operators) eqn:Hin.
  - split; [|intros [? _]; discriminate].
    intros [e He]. destruct (py_in_index _ _ Hin) as [i Hi]. congruence.
  - change voca_size with 26. change (len operators) with 6.
    unfold ord. change (ch "9") with 57. change (ch "A") with 65.
    change (ch "0") with 48.
    destruct (57 <? c) eqn:H9.
    + apply Z.ltb_lt in H9.
      destruct (c - 65 + 10 + 6 <? 26) eqn:Hlt.
      * apply Z.ltb_lt in Hlt. split; [intros [? ?]; discriminate|lia].
      * apply Z.ltb_ge in Hlt. split; [intros _; split; [done|lia]|eauto].
    + apply Z.ltb_ge in H9.
      destruct (c - 48 + 6 <? 26) eqn:Hlt.
      * apply Z.ltb_lt in Hlt. split; [intros [? ?]; discriminate|lia].
      * apply Z.ltb_ge in Hlt. lia.
Qed.

(** C7. A character outside the alphabet that [to_token] does not
    reject: [':'] passes the assertion and receives 9, the id of ['3']. *)
Theorem to_token_colon :
(ch ":" ∉ alphabet)
  /\ to_token (ch ":") = Ok 9
  /\ to_token (ch "3") = Ok 9.
Proof.
  split; [|split; reflexivity].
  intros H. apply list_elem_of_In in H. vm_compute in H.
  repeat destruct H as [H|H]; try discriminate H. exact H.
Qed.

(** ** Elementary-school addition *)

Lemma sum_two_chars_digits (c1 c2 : pychar) :
  is_digit c1 -> is_digit c2 ->
  sum_two_chars c1 c2 = Ok (digit_sum_char c1 c2).
Proof.
  unfold is_digit, sum_two_chars, digit_sum_char, ord, chr.
  change (ch "0") with 48. change (ch "9") with 57. change (ch "A") with 65.
  intros H1 H2.
  destruct (57 <? c1 - 48 + (c2 - 48) + 48) eqn:Hgt;
    [apply Z.ltb_lt in Hgt | apply Z.ltb_ge in Hgt];
    (destruct (c1 - 48 + (c2 - 48) <=? 9) eqn:Hle;
       [apply Z.leb_le in Hle | apply Z.leb_gt in Hle]); try lia.
  - replace (_ && _) with true by (symmetry; apply andb_true_iff; lia).
    f_equal. lia.
  - replace (_ && _) with true by (symmetry; apply andb_true_iff; lia).
    f_equal. lia.
Qed.

Lemma sum_two_str_loop_digits (pairs : list (pychar * pychar)) (res : pystr) :
  Forall (fun p => is_digit p.1 /\ is_digit p.2) pairs ->
  sum_two_str_loop pairs res
  = Ok (res ++ map (fun p => digit_sum_char p.1 p.2) pairs).
Proof.
  intros H. revert res.
  induction H as [|[c1 c2] pairs [H1 H2] _ IH]; intros res; simpl.
  - by rewrite app_nil_r.
  - rewrite sum_two_chars_digits by done. simpl.
    rewrite IH, <- app_assoc. done.
Qed.

Lemma padding_str_left_length (text : pystr) (length : Z) :
  len text <= length -> len (padding_str text length "left") = length.
Proof.
  unfold padding_str, len. simpl. intros H.
  destruct (_ <? _) eqn:Hlt; [|apply Z.ltb_ge in Hlt; lia].
  rewrite length_app, length_replicate. lia.
Qed.

Lemma padding_str_left_digits (text : pystr) (length : Z) :
  Forall is_digit text -> Forall is_digit (padding_str text length "left").
Proof.
  unfold padding_str. simpl. intros H.
  destruct (_ <? _); [|done].
  apply Forall_app. split; [|done].
  apply Forall_replicate. unfold is_digit. change (ch "0") with 48. lia.
Qed.

Lemma map_zip_pairs {A B C} (f : A -> B -> C) (l1 : list A) (l2 : list B) :
  map (fun p => f p.1 p.2) (zip l1 l2) = zip_with f l1 l2.
Proof.
  revert l2. induction l1 as [|a l1 IH]; intros [|b l2]; simpl; try done.
  by rewrite IH.
Qed.

(** The operands are left-padded with ['0'] to the longer length and
    added position by position, with no carry. *)
Lemma sum_two_str_digits (str1 str2 : pystr) :
  Forall is_digit str1 -> Forall is_digit str2 ->
  let n := Z.max (len str1) (len str2) in
  let text1 := padding_str str1 n "left" in
  let text2 := padding_str str2 n "left" in
  len text1 = n /\ len text2 = n
  /\ sum_two_str str1 str2
     = Ok (text1, text2, zip_with digit_sum_char text1 text2).
Proof.
  intros H1 H2 n text1 text2.
  split; [apply padding_str_left_length; lia|].
  split; [apply padding_str_left_length; lia|].
  unfold sum_two_str. fold n. fold text1. fold text2.
  rewrite sum_two_str_loop_digits.
  - simpl. by rewrite map_zip_pairs.
  - assert (D1 : Forall is_digit text1) by by apply padding_str_left_digits.
    assert (D2 : Forall is_digit text2) by by apply padding_str_left_digits.
    clearbody text1 text2. clear -D1 D2. revert text2 D2.
    induction D1 as [|a t1 Ha _ IH]; intros t2 D2; [constructor|].
    destruct D2 as [|b t2 Hb D2]; [constructor|].
    simpl. constructor; [done|]. by apply IH.
Qed.

(** A digit sum of 10 is written ['B'], and ['A'] is never written. *)
Lemma digit_sum_char_10 (c1 c2 : pychar) :
  (c1 - 48) + (c2 - 48) = 10 -> digit_sum_char c1 c2 = ch "B".
Proof. unfold digit_sum_char. intros ->. reflexivity. Qed.

Lemma digit_sum_char_not_A (c1 c2 : pychar) :
  is_digit c1 -> is_digit c2 -> digit_sum_char c1 c2 <> ch "A".
Proof.
  unfold is_digit, digit_sum_char. change (ch "A") with 65. intros H1 H2.
  destruct (_ <=? 9) eqn:Hle; [apply Z.leb_le in Hle|apply Z.leb_gt in Hle]; lia.
Qed.

(** C1. [sum_two_str("5", "5")] writes ['B'] for the digit sum 10, where
    the overflow letters were to start at ['A']. *)
Theorem sum_two_str_5_5 :
  sum_two_str (str "5") (str "5") = Ok (str "5", str "5", str "B")
  /\ sum_two_str (str "5") (str "5") <> Ok (str "5", str "5", str "A").
Proof. split; [reflexivity|discriminate]. Qed.

(** ** Construction-time checks *)

Lemma MultiHeadedAttention_init_raises (h d_model : Z) (dropout : Q) :
  d_model mod h <> 0 \/ h = 0 ->
  exists e, MultiHeadedAttention_init h d_model dropout = Raise e.
Proof.
  unfold MultiHeadedAttention_init, py_mod. intros H.
  destruct (h =? 0) eqn:Hh; simpl; [eauto|].
  apply Z.eqb_neq in Hh. destruct H as [H|H]; [|done].
  apply Z.eqb_neq in H. rewrite H. simpl. eauto.
Qed.

Lemma LabelSmoothing_forward_size_2 {F L} (criterion : tensor2 F -> tensor2 Q -> L)
    (padding_idx : Z) (smoothing : Q) (x : tensor2 F) (target : list Z) :
  exists e,
    (crit ← LabelSmoothing_init 2 padding_idx smoothing;
     LabelSmoothing_forward criterion crit x target) = Raise e
    /\ (forallb (fun row => len row =? 2) x = true -> e = ZeroDivisionError).
Proof.
  simpl. unfold LabelSmoothing_forward. simpl.
  destruct (forallb _ x); simpl; eauto.
  eexists. split; [reflexivity|discriminate].
Qed.

(** C8, as the code has it. [MultiHeadedAttention] asserts
    [d_model % h == 0] when it is constructed.  [LabelSmoothing] checks
    nothing when it is constructed, whatever the size; with size 2 it is
    the first [forward] that fails, on the division by [size - 2]. *)
Theorem construction_checks (h d_model : Z) (dropout : Q)
    (size padding_idx : Z) (smoothing : Q) :
  h <> 0 -> d_model mod h <> 0 ->
  MultiHeadedAttention_init h d_model dropout = Raise AssertionError
  /\ (exists crit, LabelSmoothing_init size padding_idx smoothing = Ok crit
                   /\ ls_size crit = size)
  /\ (forall x target, exists e,
        (crit ← LabelSmoothing_init 2 padding_idx smoothing;
         LabelSmoothing_forward (fun (_ : tensor2 Q) (_ : tensor2 Q) => tt)
                                crit x target) = Raise e).
Proof.
  intros Hh Hm. split; [|split].
  - unfold MultiHeadedAttention_init, py_mod.
    apply Z.eqb_neq in Hh, Hm. by rewrite Hh; simpl; rewrite Hm.
  - eexists. split; reflexivity.
  - intros x target.
    destruct (LabelSmoothing_forward_size_2 (fun _ _ => tt) padding_idx
                smoothing x target) as (e & He & _).
    eauto.
Qed.

Lemma construction_checks_witness :
  MultiHeadedAttention_init 3 512 (1 # 10) = Raise AssertionError
  /\ (exists crit, LabelSmoothing_init 2 0 (1 # 10) = Ok crit /\ ls_size crit = 2)
  /\ (forall x target, exists e,
        (crit ← LabelSmoothing_init 2 0 (1 # 10);
         LabelSmoothing_forward (fun (_ : tensor2 Q) (_ : tensor2 Q) => tt)
                                crit x target) = Raise e).
Proof. apply (construction_checks 3 512 (1 # 10) 2 0 (1 # 10)); [lia|discriminate]. Defined.

(** C8, as stated, fails: a [LabelSmoothing] of size 2 is constructed
    without any failure. *)
Lemma LabelSmoothing_init_size_2_ok :
  LabelSmoothing_init 2 0 (1 # 10)
  = Ok {| ls_padding_idx := 0; ls_confidence := 1 - (1 # 10);
          ls_smoothing := 1 # 10; ls_size := 2; ls_true_dist := None |}
  /\ 2 < 3.
Proof. split; [reflexivity|lia]. Qed.

(** ** Causal mask *)


(** ** Causal mask *)

Ltac opt_simpl := cbn [fmap option_fmap option_map mbind option_bind].
Lemma subsequent_mask_at (n i j : nat) :
  (i < n)%nat -> (j < n)%nat ->
  at3 (subsequent_mask n) 0 i j = Some (bool_decide (j <= i)%nat).
Proof.
  intros Hi Hj. unfold subsequent_mask, map3, map2, torch_triu, torch_ones, at3, at2.
  cbn [fst snd].
  rewrite !list_lookup_fmap. rewrite lookup_replicate_2 by lia. opt_simpl.
  rewrite !list_lookup_fmap, list_lookup_imap, lookup_replicate_2 by done.
  opt_simpl.
  rewrite !list_lookup_fmap, list_lookup_imap, lookup_replicate_2 by done.
  opt_simpl.
  f_equal. unfold to_uint8.
  destruct (1 <=? Z.of_nat j - Z.of_nat i) eqn:H; [apply Z.leb_le in H|apply Z.leb_gt in H].
  - rewrite bool_decide_eq_false_2 by lia. reflexivity.
  - rewrite bool_decide_eq_true_2 by lia. reflexivity.
Qed.
Lemma subsequent_mask_shape (n : nat) : has_shape3 (subsequent_mask n) 1 n n.
Proof.
  unfold subsequent_mask, map3, map2, torch_triu, torch_ones, has_shape3, has_shape2.
  cbn [fst snd]. rewrite !length_fmap, length_replicate. split; [done|].
  rewrite !Forall_fmap. apply Forall_replicate. simpl.
  rewrite !length_fmap, length_imap, length_replicate. split; [done|].
  rewrite !Forall_fmap. apply Forall_forall. intros row Hrow.
  apply list_elem_of_lookup in Hrow as [i Hrow].
  rewrite list_lookup_imap in Hrow.
  destruct (replicate n (replicate n 1%Q) !! i) as [r|] eqn:E; [|done].
  apply lookup_replicate in E as [-> _]. simpl in Hrow.
  injection Hrow as <-. simpl.
  by rewrite !length_fmap, length_imap, length_replicate.
Qed.
(** C4. For every [n >= 1], [subsequent_mask(n)] has shape [[1, n, n]]
    and its entry at [(i, j)] is true exactly when [j <= i]: the mask is
    lower-triangular with the diagonal, and every entry strictly above
    the diagonal is false. *)
Theorem subsequent_mask_lower_triangular (n i j : nat) :
  (1 <= n)%nat -> (i < n)%nat -> (j < n)%nat ->
  has_shape3 (subsequent_mask n) 1 n n
  /\ (at3 (subsequent_mask n) 0 i j = Some true <-> (j <= i)%nat)
  /\ (at3 (subsequent_mask n) 0 i j = Some false <-> (i < j)%nat).
Proof.
  intros _ Hi Hj. split; [apply subsequent_mask_shape|].
  rewrite subsequent_mask_at by done.
  destruct (decide (j <= i)%nat) as [H|H].
  - rewrite bool_decide_eq_true_2 by done. split; split; try done; lia.
  - rewrite bool_decide_eq_false_2 by done. split; split; try done; lia.
Qed.

Lemma subsequent_mask_lower_triangular_witness :
  has_shape3 (subsequent_mask 3) 1 3 3
  /\ (at3 (subsequent_mask 3) 0 1 2 = Some true <-> (2 <= 1)%nat)
  /\ (at3 (subsequent_mask 3) 0 1 2 = Some false <-> (1 < 2)%nat).
Proof. apply (subsequent_mask_lower_triangular 3 1 2); lia. Defined.


(** ** Label smoothing *)

Lemma Qsum_replicate (n : nat) (v : Q) :
  (Qsum (replicate n v) == inject_Z (Z.of_nat n) * v)%Q.
Proof.
  induction n as [|n IH].
  - simpl. ring.
  - rewrite Nat2Z.inj_succ. unfold Z.succ. rewrite inject_Z_plus.
    cbn [replicate Qsum foldr]. fold (Qsum (replicate n v)). rewrite IH. ring.
Qed.

Lemma Qsum_insert (l : list Q) (i : nat) (a v : Q) :
  l !! i = Some a -> (Qsum (<[i:=v]> l) == Qsum l - a + v)%Q.
Proof.
  revert i. induction l as [|b l IH]; intros [|i] H; try done.
  - injection H as ->. cbn [Qsum foldr insert list_insert]. ring.
  - cbn [Qsum foldr insert list_insert]. fold (Qsum (<[i:=v]> l)). fold (Qsum l).
    rewrite (IH i H). ring.
Qed.

Lemma scatter_1_ok {A} (t : tensor2 A) (index : list Z) (v : A) (size : Z) :
  (length index <= length t)%nat ->
  Forall (fun row => len row = size) t ->
  Forall (fun k => 0 <= k < size) index ->
  exists t',
    scatter_1 t index v = Ok t'
    /\ length t' = length t
    /\ forall i,
         t' !! i = match index !! i with
                   | Some k => (fun row => <[Z.to_nat k := v]> row) <$> t !! i
                   | None => t !! i
                   end.
Proof.
  intros Hlen Ht Hidx. revert t Hlen Ht.
  induction Hidx as [|k index Hk _ IH]; intros t Hlen Ht.
  - exists t. destruct t; simpl; split_and!; done.
  - destruct Ht as [|row t Hrow Ht]; [simpl in Hlen; lia|].
    simpl in Hlen. destruct (IH t ltac:(lia) Ht) as (t' & E & L & Hi).
    exists (<[Z.to_nat k := v]> row :: t'). simpl. rewrite Hrow.
    replace ((0 <=? k) && (k <? size)) with true
      by (symmetry; apply andb_true_iff; lia).
    rewrite E. simpl. split_and!; [done|by rewrite L|].
    intros [|i]; [done|]. simpl. apply Hi.
Qed.

Lemma elem_of_torch_nonzero (b : list bool) (i : nat) :
  i ∈ torch_nonzero b <-> b !! i = Some true.
Proof.
  unfold torch_nonzero. rewrite list_elem_of_omap. split.
  - intros (o & Ho & E). simpl in E. subst o.
    apply list_elem_of_lookup in Ho as [k Hk].
    rewrite list_lookup_imap in Hk.
    destruct (b !! k) as [[|]|] eqn:Hb; simpl in Hk; by simplify_eq.
  - intros H. exists (Some i). split; [|done].
    apply list_elem_of_lookup. exists i. by rewrite list_lookup_imap, H.
Qed.

Lemma index_fill_0_ok {A} (t : tensor2 A) (index : list nat) (v : A) :
  Forall (fun i => i < length t)%nat index ->
  exists t',
    index_fill_0 t index v = Ok t'
    /\ length t' = length t
    /\ forall i,
         t' !! i = if decide (i ∈ index)
                   then fmap (fun _ => v) <$> t !! i
                   else t !! i.
Proof.
  intros H. revert t H. induction index as [|k index IH]; intros t H.
  - exists t. split_and!; [done..|]. intros i.
    rewrite decide_False; [done|apply not_elem_of_nil].
  - apply Forall_cons in H as [Hk H]. simpl.
    rewrite decide_True by done.
    destruct (IH (alter (fmap (fun _ => v)) k t)) as (t' & E & Hl & Hi).
    { by rewrite length_alter. }
    rewrite length_alter in Hl.
    exists t'. split_and!; [done..|]. intros i. rewrite Hi.
    destruct (decide (i = k)) as [->|Hne].
    + rewrite list_lookup_alter_eq.
      rewrite (decide_True (P:=k ∈ k :: index)) by (apply elem_of_cons; auto).
      destruct (t !! k) as [row|]; simpl; [|by case_decide].
      case_decide; [|done]. simpl. f_equal.
      rewrite <- list_fmap_compose. done.
    + rewrite list_lookup_alter_ne by done.
      destruct (decide (i ∈ index)) as [Hin|Hin].
      * rewrite decide_True; [done|apply elem_of_cons; auto].
      * rewrite decide_False; [done|].
        rewrite elem_of_cons. intros [?|?]; done.
Qed.

Lemma fmap_const_replicate {A B} (l : list A) (v : B) :
  (fun _ => v) <$> l = replicate (length l) v.
Proof.
  induction l as [|a l IH]; [done|].
  rewrite fmap_cons. cbn [length replicate]. by rewrite IH.
Qed.

(** The rows of the soft target, one for each target id [t]: the
    result of [fill_], [scatter_], the column assignment and
    [index_fill_] on that row. *)
Lemma true_dist_rows {F L} (criterion : tensor2 F -> tensor2 Q -> L)
    (size padding_idx : Z) (smoothing : Q) (x : tensor2 F) (target : list Z) :
  size <> 2 -> 0 <= padding_idx < size ->
  Forall (fun row => len row = size) x ->
  (length target <= length x)%nat ->
  Forall (fun t => 0 <= t < size) target ->
  exists true_dist crit',
    (crit ← LabelSmoothing_init size padding_idx smoothing;
     LabelSmoothing_forward criterion crit x target)
    = Ok (criterion x true_dist, crit')
    /\ ls_true_dist crit' = Some true_dist
    /\ length true_dist = length x
    /\ forall i t, target !! i = Some t ->
         true_dist !! i
         = Some (if decide (t = padding_idx)
                 then replicate (Z.to_nat size) 0%Q
                 else <[Z.to_nat padding_idx := 0%Q]>
                        (<[Z.to_nat t := (1 - smoothing)%Q]>
                           (replicate (Z.to_nat size)
                              (smoothing / inject_Z (size - 2))%Q))).
Proof.
  intros Hsize Hpad Hx Hlen Htgt.
  cbn [LabelSmoothing_init mbind result_bind].
  unfold LabelSmoothing_forward.
  cbn [ls_size ls_smoothing ls_confidence ls_padding_idx].
  assert (Hassert : forallb (fun row : list F => len row =? size) x = true).
  { apply forallb_forall. intros row Hrow. apply Z.eqb_eq.
    apply list_elem_of_In in Hrow.
    exact (proj1 (Forall_forall _ _) Hx row Hrow). }
  rewrite Hassert. cbn [py_assert mbind result_bind].
  unfold py_truediv. rewrite (proj2 (Z.eqb_neq _ _)) by lia.
  cbn [mbind result_bind].
  set (v := (smoothing / inject_Z (size - 2))%Q).
  set (c := (1 - smoothing)%Q).
  destruct (scatter_1_ok (fill_ x v) target c size) as (t1 & E1 & L1 & R1).
  { unfold fill_, map2. by rewrite length_fmap. }
  { unfold fill_, map2. rewrite Forall_fmap.
    eapply Forall_impl; [exact Hx|]. intros row Hrow. simpl.
    unfold len in *. by rewrite length_fmap. }
  { done. }
  rewrite E1. cbn [mbind result_bind].
  unfold setitem_col. rewrite (proj2 (Z.ltb_ge _ _)) by lia.
  replace ((0 <=? padding_idx) && (padding_idx <? size)) with true
    by (symmetry; apply andb_true_iff; lia).
  cbn [mbind result_bind].
  set (t2 := (fun row => <[Z.to_nat padding_idx := 0%Q]> row) <$> t1).
  set (mask := torch_nonzero ((fun t => t =? padding_idx) <$> target)).
  destruct (index_fill_0_ok t2 mask 0%Q) as (t3 & E3 & L3 & R3).
  { apply Forall_forall. intros i Hi.
    apply elem_of_torch_nonzero in Hi. rewrite list_lookup_fmap in Hi.
    destruct (target !! i) eqn:Ht; [|done].
    apply lookup_lt_Some in Ht. unfold t2. rewrite length_fmap, L1.
    unfold fill_, map2. rewrite length_fmap. lia. }
  rewrite E3. cbn [mbind result_bind].
  eexists t3, _. split; [reflexivity|]. split; [reflexivity|].
  split.
  { rewrite L3. unfold t2. rewrite length_fmap, L1.
    unfold fill_, map2. by rewrite length_fmap. }
  intros i t Ht.
  set (row := <[Z.to_nat padding_idx:=0%Q]> _).
  assert (Hi : (i < length x)%nat) by (apply lookup_lt_Some in Ht; lia).
  destruct (lookup_lt_is_Some_2 x i Hi) as [xr Hxr].
  assert (Lxr : length xr = Z.to_nat size).
  { pose proof (proj1 (Forall_lookup _ _) Hx i xr Hxr) as H.
    unfold len in H. simpl in H. lia. }
  rewrite R3. unfold t2. rewrite list_lookup_fmap, R1, Ht.
  unfold fill_, map2. rewrite list_lookup_fmap, Hxr. simpl.
  rewrite (fmap_const_replicate xr), Lxr. fold row.
  assert (Hmask : i ∈ mask <-> t = padding_idx).
  { unfold mask. rewrite elem_of_torch_nonzero, list_lookup_fmap, Ht. simpl.
    split; [intros [= H]; by apply Z.eqb_eq in H|].
    intros ->. by rewrite Z.eqb_refl. }
  destruct (decide (t = padding_idx)) as [->|Hne].
  - rewrite decide_True by (by apply Hmask). simpl. f_equal.
    rewrite fmap_const_replicate. unfold row.
    by rewrite !length_insert, length_replicate.
  - rewrite decide_False; [done|]. intros H. by apply Hmask in H.
Qed.

(** C3. The soft target that [LabelSmoothing.forward] builds.  A row
    whose target id is the pad id is all zero.  A row with another
    target holds exactly [1 - s] at the target class, [s / (size - 2)]
    at each other class that is not the pad class, exactly 0 at the pad
    class, and sums to 1.  The loss returned is the criterion (the
    sum-reduced KL divergence) of the predicted log-probabilities and
    this soft target. *)
Theorem label_smoothing_soft_target {F L}
    (criterion : tensor2 F -> tensor2 Q -> L)
    (size padding_idx : Z) (smoothing : Q) (x : tensor2 F) (target : list Z) :
  size <> 2 -> 0 <= padding_idx < size ->
  Forall (fun row => len row = size) x ->
  length target = length x ->
  Forall (fun t => 0 <= t < size) target ->
  exists true_dist crit',
    (crit ← LabelSmoothing_init size padding_idx smoothing;
     LabelSmoothing_forward criterion crit x target)
    = Ok (criterion x true_dist, crit')
    /\ ls_true_dist crit' = Some true_dist
    /\ length true_dist = length target
    /\ forall i t, target !! i = Some t ->
       exists row,
         true_dist !! i = Some row /\ len row = size
         /\ (t = padding_idx -> Forall (fun q => q = 0%Q) row)
         /\ (t <> padding_idx ->
              row !! Z.to_nat t = Some (1 - smoothing)%Q
              /\ row !! Z.to_nat padding_idx = Some 0%Q
              /\ (forall j, 0 <= j < size -> j <> t -> j <> padding_idx ->
                    row !! Z.to_nat j
                    = Some (smoothing / inject_Z (size - 2))%Q)
              /\ (Qsum row == 1)%Q).
Proof.
  intros Hsize Hpad Hx Hlen Htgt.
  destruct (true_dist_rows criterion size padding_idx smoothing x target)
    as (td & crit' & E & Etd & Ltd & Hrows); [done..|lia|done|].
  exists td, crit'. split_and!; [done..|congruence|].
  intros i t Ht.
  pose proof (proj1 (Forall_lookup _ _) Htgt i t Ht) as Hrange.
  simpl in Hrange.
  eexists. split; [exact (Hrows i t Ht)|].
  set (v := (smoothing / inject_Z (size - 2))%Q).
  destruct (decide (t = padding_idx)) as [->|Hne].
  - split; [unfold len; rewrite length_replicate; lia|].
    split; [intros _; by apply Forall_replicate|done].
  - split; [unfold len; rewrite !length_insert, length_replicate; lia|].
    split; [done|]. intros _.
    assert (Hnat : Z.to_nat padding_idx <> Z.to_nat t) by lia.
    assert (Hv : <[Z.to_nat t:=(1 - smoothing)%Q]>
                   (replicate (Z.to_nat size) v) !! Z.to_nat padding_idx
                 = Some v).
    { rewrite list_lookup_insert_ne by lia.
      apply lookup_replicate_2. lia. }
    split_and!.
    + rewrite list_lookup_insert_ne by done.
      apply list_lookup_insert_eq. rewrite length_replicate. lia.
    + apply list_lookup_insert_eq. rewrite length_insert, length_replicate. lia.
    + intros j Hj Hjt Hjp.
      rewrite !list_lookup_insert_ne by lia.
      apply lookup_replicate_2. lia.
    + rewrite (Qsum_insert _ _ v) by done.
      rewrite (Qsum_insert _ _ v) by (apply lookup_replicate_2; lia).
      rewrite Qsum_replicate, Z2Nat.id by lia.
      assert (Hq : ~ (inject_Z (size - 2) == 0)%Q).
      { change 0%Q with (inject_Z 0). rewrite inject_Z_injective. lia. }
      replace size with ((size - 2) + 2) at 1 by lia.
      rewrite inject_Z_plus. unfold v.
      change (inject_Z 2) with 2%Q. field. exact Hq.
Qed.

Lemma label_smoothing_soft_target_witness :
  exists true_dist crit',
    (crit ← LabelSmoothing_init 5 0 (2 # 5);
     LabelSmoothing_forward (fun (_ : tensor2 unit) (_ : tensor2 Q) => tt) crit
       (replicate 5 (replicate 5 tt)) [2; 1; 0; 3; 3])
    = Ok (tt, crit')
    /\ ls_true_dist crit' = Some true_dist
    /\ length true_dist = 5%nat
    /\ forall i t, [2; 1; 0; 3; 3] !! i = Some t ->
       exists row,
         true_dist !! i = Some row /\ len row = 5
         /\ (t = 0 -> Forall (fun q => q = 0%Q) row)
         /\ (t <> 0 ->
              row !! Z.to_nat t = Some (1 - (2 # 5))%Q
              /\ row !! Z.to_nat 0 = Some 0%Q
              /\ (forall j, 0 <= j < 5 -> j <> t -> j <> 0 ->
                    row !! Z.to_nat j
                    = Some ((2 # 5) / inject_Z (5 - 2))%Q)
              /\ (Qsum row == 1)%Q).
Proof.
  apply (label_smoothing_soft_target (fun _ _ => tt) 5 0 (2 # 5)
           (replicate 5 (replicate 5 tt)) [2; 1; 0; 3; 3]).
  - lia.
  - lia.
  - repeat constructor.
  - reflexivity.
  - repeat constructor; lia.
Defined.

(** ** Learning-rate schedule *)

Section Rate.
Local Open Scope R_scope.

(** [x ** (-e)] decreases in [x], for [e > 0]. *)
Lemma Rpower_neg_le (a b e : R) :
  0 < e -> 0 < a <= b -> Rpower b (- e) <= Rpower a (- e).
Proof.
  intros He [Ha Hab]. rewrite !Rpower_Ropp.
  apply Rinv_le_contravar; [apply exp_pos|].
  apply Rle_Rpower_l; lra.
Qed.

Lemma Rpower_neg_lt (a b e : R) :
  0 < e -> 0 < a < b -> Rpower b (- e) < Rpower a (- e).
Proof.
  intros He [Ha Hab]. rewrite !Rpower_Ropp.
  apply Rinv_lt_contravar; [apply Rmult_lt_0_compat; apply exp_pos|].
  apply Rlt_Rpower_l; lra.
Qed.

Lemma Rpower_split (s : R) : 0 < s -> Rpower s (-0.5) = s * Rpower s (-1.5).
Proof.
  intros Hs. rewrite <- (Rpower_1 s) at 2 by done.
  rewrite <- Rpower_plus. f_equal. lra.
Qed.

(** During warmup the linear branch of [min] is taken. *)
Lemma Rmin_warmup (s w : R) :
  0 < s <= w ->
  Rmin (Rpower s (-0.5)) (s * Rpower w (-1.5)) = s * Rpower w (-1.5).
Proof.
  intros [Hs Hsw]. apply Rmin_right. rewrite (Rpower_split s) by done.
  apply Rmult_le_compat_l; [lra|].
  replace (-1.5) with (- (1.5)) by lra. apply Rpower_neg_le; lra.
Qed.

(** After warmup the inverse square root is taken. *)
Lemma Rmin_decay (s w : R) :
  0 < w <= s ->
  Rmin (Rpower s (-0.5)) (s * Rpower w (-1.5)) = Rpower s (-0.5).
Proof.
  intros [Hw Hws]. apply Rmin_left. rewrite (Rpower_split s) by lra.
  apply Rmult_le_compat_l; [lra|].
  replace (-1.5) with (- (1.5)) by lra. apply Rpower_neg_le; lra.
Qed.
End Rate.

Lemma float_overflow_gt_1 : 1 < float_overflow.
Proof. reflexivity. Qed.

Lemma step_limit_lt_overflow : step_limit < float_overflow.
Proof. reflexivity. Qed.

Lemma IZR_float_overflow_gt_1 : (1 < IZR float_overflow)%R.
Proof. apply IZR_lt. exact float_overflow_gt_1. Qed.

Lemma Q2R_neg_half : Q2R (-1 # 2) = (-0.5)%R.
Proof. unfold Q2R. cbn [Qnum Qden]. lra. Qed.

Lemma Q2R_neg_three_halves : Q2R (-3 # 2) = (-1.5)%R.
Proof. unfold Q2R. cbn [Qnum Qden]. lra. Qed.

Lemma py_min_Rmin (x y : R) :
  py_min (PyFloat x) (PyFloat y) = Ok (PyFloat (Rmin x y)).
Proof.
  unfold py_min, Rmin. destruct (Rlt_dec y x), (Rle_dec x y);
    try reflexivity; do 2 f_equal; lra.
Qed.

(** The cases of [b ** e] for an exponent that is negative and no
    integer, as both exponents of [rate] are. *)
Lemma py_pow_cases (b : Z) (e : Q) :
  Qeq_bool e 0 = false -> Qle_bool 0 e = false -> is_integer e = false ->
  py_pow b e
  = if Z.abs b <? float_overflow then
      if b =? 0 then Raise ZeroDivisionError
      else if 0 <? b then py_float_result (Rpower (IZR b) (Q2R e))
      else Ok (PyComplex (Rpower (- IZR b) (Q2R e) * cos (PI * Q2R e))
                         (Rpower (- IZR b) (Q2R e) * sin (PI * Q2R e)))%R
    else Raise OverflowError.
Proof.
  intros H0 Hle Hint. unfold py_pow, py_float.
  destruct (Z.abs b <? float_overflow); cbn [mbind result_bind]; [|done].
  by rewrite H0, Hle, Hint.
Qed.

Lemma py_pow_pos (b : Z) (e : Q) :
  Qeq_bool e 0 = false -> Qle_bool 0 e = false -> is_integer e = false ->
  0 < b < float_overflow ->
  py_pow b e = Ok (PyFloat (Rpower (IZR b) (Q2R e))).
Proof.
  intros H0 Hle Hint Hb. rewrite py_pow_cases by done.
  rewrite (proj2 (Z.ltb_lt _ _)) by lia.
  rewrite (proj2 (Z.eqb_neq b 0)), (proj2 (Z.ltb_lt 0 b)) by lia.
  unfold py_float_result.
  destruct (Rlt_dec _ _) as [|Hn]; [done|]. exfalso. apply Hn.
  assert (He : (Q2R e < 0)%R).
  { apply Rnot_le_lt. intros Hge.
    replace 0%R with (Q2R 0) in Hge by (unfold Q2R; cbn [Qnum Qden]; lra).
    apply Qreals.Rle_Qle, Qle_bool_iff in Hge. congruence. }
  rewrite Rabs_pos_eq by apply Rlt_le, exp_pos.
  apply Rle_lt_trans with (2 := IZR_float_overflow_gt_1).
  rewrite <- (Rpower_O (IZR b)) by (apply IZR_lt; lia).
  apply Rle_Rpower; [|lra]. apply IZR_le. lia.
Qed.

Lemma py_pow_neg_base (b : Z) (e : Q) :
  Qeq_bool e 0 = false -> Qle_bool 0 e = false -> is_integer e = false ->
  - float_overflow < b < 0 ->
  exists re im, py_pow b e = Ok (PyComplex re im).
Proof.
  intros H0 Hle Hint Hb. rewrite py_pow_cases by done.
  rewrite (proj2 (Z.ltb_lt _ _)) by lia.
  rewrite (proj2 (Z.eqb_neq b 0)), (proj2 (Z.ltb_ge 0 b)) by lia.
  eauto.
Qed.

Lemma rate_ok (step model_size : Z) (factor : R) (warmup : Z) :
  1 <= step < float_overflow -> 0 < model_size < float_overflow ->
  0 < warmup < float_overflow ->
  rate step model_size factor warmup
  = Ok (PyFloat (factor * (Rpower (IZR model_size) (-0.5)
                           * Rmin (Rpower (IZR step) (-0.5))
                                  (IZR step * Rpower (IZR warmup) (-1.5)))))%R.
Proof.
  intros Hs Hm Hw. unfold rate.
  rewrite (proj2 (Z.eqb_neq step 0)) by lia.
  rewrite !py_pow_pos by (done || lia). cbn [mbind result_bind].
  unfold py_mul_int, py_float.
  rewrite (proj2 (Z.ltb_lt _ _)) by lia. cbn [mbind result_bind py_mul].
  rewrite py_min_Rmin. cbn [mbind result_bind py_mul].
  by rewrite Q2R_neg_half, Q2R_neg_three_halves.
Qed.

Lemma rate_warmup (step model_size : Z) (factor : R) (warmup : Z) :
  1 <= step <= warmup -> warmup < float_overflow ->
  0 < model_size < float_overflow ->
  rate step model_size factor warmup
  = Ok (PyFloat (factor * (Rpower (IZR model_size) (-0.5)
                           * (IZR step * Rpower (IZR warmup) (-1.5)))))%R.
Proof.
  intros Hs Hw Hm. rewrite rate_ok by lia. rewrite Rmin_warmup; [done|].
  split; [apply IZR_lt; lia|apply IZR_le; lia].
Qed.

Lemma rate_decay (step model_size : Z) (factor : R) (warmup : Z) :
  0 < warmup <= step -> step < float_overflow ->
  0 < model_size < float_overflow ->
  rate step model_size factor warmup
  = Ok (PyFloat (factor * (Rpower (IZR model_size) (-0.5)
                           * Rpower (IZR step) (-0.5))))%R.
Proof.
  intros Hs Hw Hm. rewrite rate_ok by lia. rewrite Rmin_decay; [done|].
  split; [apply IZR_lt; lia|apply IZR_le; lia].
Qed.

Lemma rate_zero_step (model_size : Z) (factor : R) (warmup : Z) :
  rate 0 model_size factor warmup = rate 1 model_size factor warmup.
Proof. reflexivity. Qed.

(** C6, as the code has it.  The step 0 is read as step 1, whatever
    the other arguments.  For a positive model size that converts to a
    float, a positive warmup and steps below [step_limit] and a factor
    that is not negative, the rate is
    [factor * (model_size ** (-0.5) * min(step ** (-0.5),
    step * warmup ** (-1.5)))]; it does not fall from one step to a
    later one below the warmup step; above the warmup step it is
    [factor * (model_size ** (-0.5) * step ** (-0.5))] and does not
    rise. *)
Theorem rate_schedule (model_size : Z) (factor : R) (warmup : Z) :
  rate 0 model_size factor warmup = rate 1 model_size factor warmup
  /\ (0 < model_size < float_overflow -> 0 < warmup < step_limit ->
      (0 <= factor)%R ->
      (forall s, 1 <= s < step_limit ->
         rate s model_size factor warmup
         = Ok (PyFloat
                 (factor * (Rpower (IZR model_size) (-0.5)
                            * Rmin (Rpower (IZR s) (-0.5))
                                   (IZR s * Rpower (IZR warmup) (-1.5)))))%R)
      /\ (forall s1 s2, 1 <= s1 <= s2 -> s2 < warmup ->
            exists r1 r2,
              rate s1 model_size factor warmup = Ok (PyFloat r1)
              /\ rate s2 model_size factor warmup = Ok (PyFloat r2)
              /\ (r1 <= r2)%R)
      /\ (forall s, warmup < s < step_limit ->
            rate s model_size factor warmup
            = Ok (PyFloat (factor * (Rpower (IZR model_size) (-0.5)
                                     * Rpower (IZR s) (-0.5))))%R)
      /\ (forall s1 s2, warmup < s1 <= s2 -> s2 < step_limit ->
            exists r1 r2,
              rate s1 model_size factor warmup = Ok (PyFloat r1)
              /\ rate s2 model_size factor warmup = Ok (PyFloat r2)
              /\ (r2 <= r1)%R)).
Proof.
  split; [apply rate_zero_step|]. intros Hm Hw Hf.
  pose proof step_limit_lt_overflow as Hlim.
  assert (Hpm : (0 < Rpower (IZR model_size) (-0.5))%R) by apply exp_pos.
  assert (Hpw : (0 < Rpower (IZR warmup) (-1.5))%R) by apply exp_pos.
  split_and!.
  - intros s Hs. apply rate_ok; lia.
  - intros s1 s2 Hs Hs2. do 2 eexists.
    rewrite !rate_warmup by lia. split_and!; [done..|].
    apply Rmult_le_compat_l; [done|].
    apply Rmult_le_compat_l; [lra|].
    apply Rmult_le_compat_r; [lra|]. apply IZR_le. lia.
  - intros s Hs. apply rate_decay; lia.
  - intros s1 s2 Hs Hs2. do 2 eexists.
    rewrite !rate_decay by lia. split_and!; [done..|].
    apply Rmult_le_compat_l; [done|].
    apply Rmult_le_compat_l; [lra|].
    replace (-0.5)%R with (- (0.5))%R by lra.
    apply Rpower_neg_le; [lra|].
    split; [apply IZR_lt|apply IZR_le]; lia.
Qed.

Lemma rate_schedule_witness :
  rate 0 512 1 4000 = rate 1 512 1 4000
  /\ (exists r1 r2,
        rate 1 512 1 4000 = Ok (PyFloat r1)
        /\ rate 2 512 1 4000 = Ok (PyFloat r2) /\ (r1 <= r2)%R)
  /\ (exists r1 r2,
        rate 4001 512 1 4000 = Ok (PyFloat r1)
        /\ rate 5000 512 1 4000 = Ok (PyFloat r2)
        /\ (r2 <= r1)%R).
Proof.
  destruct (rate_schedule 512 1 4000) as (H0 & H).
  destruct H as (_ & Hup & _ & Hdown);
    [split; reflexivity | split; reflexivity | lra |].
  split; [exact H0|]. split.
  - apply (Hup 1 2); lia.
  - apply (Hdown 4001 5000); [lia|reflexivity].
Defined.

(** C6, as stated for every factor, fails: with the factor [-1] the
    rate falls during warmup. *)
Lemma rate_negative_factor_falls :
  1 < 2 /\ 2 < 4
  /\ exists r1 r2,
       rate 1 1 (-1) 4 = Ok (PyFloat r1) /\ rate 2 1 (-1) 4 = Ok (PyFloat r2)
       /\ (r2 < r1)%R.
Proof.
  split; [lia|]. split; [lia|]. do 2 eexists.
  rewrite !rate_warmup by (lia || reflexivity || (split; reflexivity)).
  split_and!; [done..|].
  assert (Hpm : (0 < Rpower 1 (-0.5))%R) by apply exp_pos.
  assert (Hpw : (0 < Rpower 4 (-1.5))%R) by apply exp_pos.
  assert (H : (Rpower 1 (-0.5) * (1 * Rpower 4 (-1.5))
               < Rpower 1 (-0.5) * (2 * Rpower 4 (-1.5)))%R).
  { apply Rmult_lt_compat_l; [done|]. lra. }
  lra.
Qed.

(** ** Training loop *)

Section RunEpochProps.
Context {W Out LossNode : Type}.
Variable model_forward :
  tensor2 Z -> tensor2 Z -> tensor3 bool -> tensor3 bool -> W -> Out * W.
Variable loss_compute :
  Out -> tensor2 Z -> Z -> W -> (Q * LossNode) * W.
Variable backward : LossNode -> W -> unit * W.
Variable optimizer : Optimizer W.
Variable scheduler : Scheduler W.

Let body := run_epoch_body model_forward loss_compute backward optimizer scheduler.
Let loop := run_epoch_loop model_forward loss_compute backward optimizer scheduler.

Ltac run_M :=
  unfold mbind, M_MBind, M_bind, mret, M_MRet, M_ret, lift, call;
  cbn beta iota delta [world calls fst snd].

Ltac norm_calls :=
  simpl; repeat (constructor; [intros ? ? ? ? [=]; subst; eauto|]);
  constructor.

(** One iteration: the calls it makes and the locals it leaves.  The
    [norm] given to [loss_compute] is the token count of the batch. *)
Lemma run_epoch_body_spec (mode : string) (accum_iter i : Z) (batch : Batch)
    (l : epoch_locals) (s : machine W (epoch_call Out LossNode)) :
  exists new,
    calls (body mode accum_iter i batch l s).2 = calls s ++ new
    /\ (is_train mode = false ->
        Forall (fun c => kind_of c = KForward \/ kind_of c = KLossCompute) new)
    /\ Forall (fun c => forall out y norm loss,
                 c = CallLossCompute out y norm loss ->
                 exists bt, batch_target batch = Some bt
                            /\ y = bt_tgt_y bt /\ norm = bt_ntokens bt) new
    /\ match (body mode accum_iter i batch l s).1 with
       | Ok l' =>
           map kind_of new = epoch_kinds mode accum_iter i
           /\ l_total_tokens l' = l_total_tokens l + batch_ntokens batch
           /\ l_total_loss l'
              = fold_left Qplus (omap call_loss new) (l_total_loss l)
           /\ l_train_state l'
              = next_train_state mode accum_iter i batch (l_train_state l)
       | Raise e =>
           batch_target batch = None
           \/ (is_train mode = true /\ accum_iter = 0)
       end.
Proof.
  unfold body, run_epoch_body, batch_attr, next_train_state, batch_ntokens,
    epoch_kinds, py_mod.
  destruct (batch_target batch) as [bt|]; run_M;
    [|exists []; rewrite app_nil_r; split_and!; auto; constructor].
  destruct (model_forward _ _ _ _ _) as [out w1]. run_M.
  destruct (loss_compute _ _ _ _) as [[loss node] w2]. run_M.
  destruct (is_train mode) eqn:Hmode; run_M.
  - destruct (backward node w2) as [[] w3]. run_M.
    destruct (accum_iter =? 0) eqn:Ha; run_M.
    { apply Z.eqb_eq in Ha. eexists. rewrite <- !app_assoc.
      split; [reflexivity|]. split; [done|]. split; [norm_calls|]. auto. }
    destruct (i mod accum_iter =? 0) eqn:Hi; run_M.
    + destruct (optimizer_step optimizer w3) as [[] w4]. run_M.
      destruct (optimizer_zero_grad optimizer true w4) as [[] w5]. run_M.
      destruct (scheduler_step scheduler w5) as [[] w6]. run_M.
      rewrite andb_true_r.
      destruct (i mod 40 =? 1) eqn:H40; run_M;
        (eexists; rewrite <- !app_assoc; split; [reflexivity|];
         split; [done|]; split; [norm_calls|];
         simpl; split_and!; try done; try (f_equal; lia)).
    + destruct (scheduler_step scheduler w3) as [[] w4]. run_M.
      rewrite andb_true_r.
      destruct (i mod 40 =? 1) eqn:H40; run_M;
        (eexists; rewrite <- !app_assoc; split; [reflexivity|];
         split; [done|]; split; [norm_calls|];
         simpl; split_and!; try done; try (f_equal; lia)).
  - rewrite andb_false_r.
    eexists. rewrite <- !app_assoc. split; [reflexivity|].
    split.
    { intros _. simpl. constructor; [simpl; auto|].
      constructor; [simpl; auto|]. constructor. }
    split; [norm_calls|].
    simpl. done.
Qed.

(** The loop: the calls it makes and the locals it leaves. *)
Lemma run_epoch_loop_spec (mode : string) (accum_iter : Z)
    (data_iter : list Batch) :
  forall (i : Z) (l : epoch_locals) (s : machine W (epoch_call Out LossNode)),
  exists new,
    calls (loop mode accum_iter i data_iter l s).2 = calls s ++ new
    /\ (is_train mode = false ->
        Forall (fun c => kind_of c = KForward \/ kind_of c = KLossCompute) new)
    /\ Forall (fun c => forall out y norm loss,
                 c = CallLossCompute out y norm loss ->
                 exists batch bt,
                   batch ∈ data_iter /\ batch_target batch = Some bt
                   /\ y = bt_tgt_y bt /\ norm = bt_ntokens bt) new
    /\ match (loop mode accum_iter i data_iter l s).1 with
       | Ok l' =>
           map kind_of new
           = epoch_kinds_from mode accum_iter i (length data_iter)
           /\ l_total_tokens l' = l_total_tokens l + sum_ntokens data_iter
           /\ l_total_loss l'
              = fold_left Qplus (omap call_loss new) (l_total_loss l)
           /\ l_train_state l'
              = train_state_after mode accum_iter i data_iter (l_train_state l)
       | Raise e =>
           Exists (fun batch => batch_target batch = None) data_iter
           \/ (is_train mode = true /\ accum_iter = 0)
       end.
Proof.
  induction data_iter as [|batch data_iter' IH]; intros i l s.
  - exists []. rewrite app_nil_r. simpl.
    split_and!; try done; try (by constructor); lia.
  - unfold loop. cbn [run_epoch_loop]. run_M.
    destruct (run_epoch_body_spec mode accum_iter i batch l s)
      as (new1 & Hc1 & He1 & Hn1 & H1).
    assert (Hn1' : Forall (fun c => forall out y norm loss,
                      c = CallLossCompute out y norm loss ->
                      exists batch0 bt,
                        batch0 ∈ batch :: data_iter'
                        /\ batch_target batch0 = Some bt
                        /\ y = bt_tgt_y bt /\ norm = bt_ntokens bt) new1).
    { eapply Forall_impl; [exact Hn1|]. intros c Hc out y norm loss E.
      destruct (Hc out y norm loss E) as (bt & ? & ? & ?).
      exists batch, bt. split_and!; try done. apply elem_of_cons; auto. }
    unfold body in Hc1, H1.
    destruct (run_epoch_body _ _ _ _ _ _ _ _ _ _ s) as [[l1|e] s1];
      cbn [fst snd] in Hc1, H1.
    + destruct H1 as (Hk1 & Ht1 & Hl1 & Hs1).
      destruct (IH (i + 1) l1 s1) as (new2 & Hc2 & He2 & Hn2 & H2).
      unfold loop in Hc2, H2.
      exists (new1 ++ new2). rewrite Hc2, Hc1, <- app_assoc.
      split; [done|].
      split; [intros Hm; apply Forall_app; auto|].
      split.
      { apply Forall_app. split; [done|].
        eapply Forall_impl; [exact Hn2|]. intros c Hc out y norm loss E.
        destruct (Hc out y norm loss E) as (b & bt & ? & ? & ? & ?).
        exists b, bt. split_and!; try done. apply elem_of_cons; auto. }
      destruct (run_epoch_loop _ _ _ _ _ _ _ _ _ _ s1) as [[l2|e] s2];
        cbn [fst snd] in H2 |- *.
      * destruct H2 as (Hk2 & Ht2 & Hl2 & Hs2).
        split_and!.
        -- rewrite map_app, Hk1, Hk2. done.
        -- rewrite Ht2, Ht1. simpl. lia.
        -- rewrite omap_app, fold_left_app, <- Hl1. done.
        -- rewrite Hs2, Hs1. done.
      * destruct H2 as [H2|H2]; [left; by apply Exists_cons_tl|by right].
    + exists new1. split; [done|]. split; [done|]. split; [done|].
      destruct H1 as [H1|H1]; [left; by apply Exists_cons_hd|by right].
Qed.

Lemma train_state_after_eval (mode : string) (accum_iter : Z)
    (data_iter : list Batch) (i : Z) (ts : TrainState) :
  is_train mode = false ->
  train_state_after mode accum_iter i data_iter ts = ts.
Proof.
  intros Hm. revert i. induction data_iter as [|b bs IH]; intros i; [done|].
  simpl. unfold next_train_state. rewrite Hm. apply IH.
Qed.

(** C10. In mode ["eval"], [run_epoch] calls only the model and the
    loss: [backward], [optimizer.step], [optimizer.zero_grad] and
    [scheduler.step] are never called.  The train state it returns is
    the one it was given, and the value it returns is the sum of the
    losses over the sum of the token counts. *)
Theorem run_epoch_eval_frame (data_iter : list Batch) (accum_iter : Z)
    (train_state : TrainState) (s : machine W (epoch_call Out LossNode)) :
  let res := run_epoch model_forward loss_compute backward optimizer
               scheduler data_iter "eval" accum_iter train_state s in
  exists new,
    calls res.2 = calls s ++ new
    /\ Forall (fun c => kind_of c = KForward \/ kind_of c = KLossCompute) new
    /\ (forall q ts',
          res.1 = Ok (q, ts') ->
          ts' = train_state
          /\ q = if sum_ntokens data_iter =? 0 then NonFinite
                 else Finite (fold_left Qplus (omap call_loss new) 0
                              / inject_Z (sum_ntokens data_iter))%Q)
    /\ (data_iter <> [] ->
        Forall (fun batch => batch_target batch <> None) data_iter ->
        exists q, res.1 = Ok (q, train_state)).
Proof.
  intros res. subst res. unfold run_epoch. run_M.
  set (l0 := {| l_total_tokens := 0; l_total_loss := 0%Q; l_tokens := 0;
                l_n_accum := 0; l_train_state := train_state |}).
  destruct (run_epoch_loop_spec "eval" accum_iter data_iter 0 l0 s)
    as (new & Hc & He & _ & H).
  unfold loop in Hc, H.
  destruct (run_epoch_loop _ _ _ _ _ _ _ _ _ _ s) as [[l1|e] s1];
    cbn [fst snd] in Hc, H |- *.
  - destruct H as (_ & Ht & Hl & Hs).
    rewrite train_state_after_eval in Hs by done.
    change (l_total_tokens l0) with 0 in Ht. rewrite Z.add_0_l in Ht.
    change (l_total_loss l0) with 0%Q in Hl.
    change (l_train_state l0) with train_state in Hs.
    unfold mean_loss. destruct data_iter as [|b bs]; cbn [fst snd].
    + exists new. split_and!; [done|by apply He|done|done].
    + rewrite Ht, Hl, Hs.
      destruct (sum_ntokens (b :: bs) =? 0); cbn [fst snd];
        (exists new; split_and!; [done|by apply He| |eauto]);
        intros q ts' [= <- <-]; done.
  - exists new. split_and!; [done|by apply He|done|].
    intros _ Hall. exfalso.
    destruct H as [H|[H _]]; [|done].
    apply Exists_exists in H as (b & Hb & Hnone).
    by apply (proj1 (Forall_forall _ _) Hall b Hb).
Qed.
End RunEpochProps.

Lemma run_epoch_eval_frame_witness :
  exists data_iter,
    traverse digit_batch [0; 1; 2] = Ok data_iter
    /\ exists q,
         (run_epoch ledger_forward ledger_loss_compute ledger_backward
            DummyOptimizer DummyScheduler data_iter "eval" 1
            {| step := 0; accum_step := 0; samples := 0; tokens := 0 |}
            {| world := {| pending := []; applied := [] |}; calls := [] |}).1
         = Ok (q, {| step := 0; accum_step := 0; samples := 0; tokens := 0 |}).
Proof.
  eexists. split; [reflexivity|].
  match goal with
  | |- context [run_epoch _ _ _ _ _ ?d _ _ _ _] =>
      destruct (run_epoch_eval_frame ledger_forward ledger_loss_compute
                  ledger_backward DummyOptimizer DummyScheduler d 1
                  {| step := 0; accum_step := 0; samples := 0; tokens := 0 |}
                  {| world := {| pending := []; applied := [] |};
                     calls := [] |})
        as (new & _ & _ & _ & Hret)
  end.
  apply Hret; [discriminate|].
  repeat (constructor; [discriminate|]). constructor.
Defined.

(** [Batch] counts the target tokens that are no padding. *)
Lemma Batch_init_ntokens (src tgt : tensor2 Z) (pad : Z) (batch : Batch) :
  Batch_init src (Some tgt) pad = Ok batch ->
  exists bt,
    batch_target batch = Some bt
    /\ bt_tgt_y bt = drop 1 <$> tgt
    /\ bt_ntokens bt = count_ne (bt_tgt_y bt) pad.
Proof.
  unfold Batch_init. destruct (make_std_mask _ pad) as [m|e]; [|done].
  cbn [mbind result_bind]. intros [= <-]. eexists. split; [reflexivity|]. done.
Qed.

(** The loss node of [SimpleLossCompute] is the criterion divided by
    [norm], and the loss returned with it is the criterion again; with
    [norm = 0] neither is a finite number. *)
Lemma SimpleLossCompute_call_node {X P} (generator : X -> P)
    (criterion : P -> tensor2 Z -> Q) (x : X) (y : tensor2 Z) (norm : Z) :
  (norm <> 0 ->
   exists loss,
     SimpleLossCompute_call generator criterion x y norm
     = (Finite loss, Finite (criterion (generator x) y / inject_Z norm)%Q)
     /\ (loss == criterion (generator x) y)%Q)
  /\ SimpleLossCompute_call generator criterion x y 0
     = (NonFinite, NonFinite).
Proof.
  split; [|reflexivity]. intros Hn. unfold SimpleLossCompute_call.
  rewrite (proj2 (Z.eqb_neq norm 0)) by done.
  eexists. split; [reflexivity|]. field.
  change 0%Q with (inject_Z 0). by rewrite inject_Z_injective.
Qed.

(** In a training mode, with a non-zero [accum_iter] and batches that
    have targets, [run_epoch] returns, and its calls are those of
    [epoch_kinds_from]. *)
Lemma run_epoch_train_calls {W Out LossNode}
    (model_forward :
       tensor2 Z -> tensor2 Z -> tensor3 bool -> tensor3 bool -> W -> Out * W)
    (loss_compute : Out -> tensor2 Z -> Z -> W -> (Q * LossNode) * W)
    (backward : LossNode -> W -> unit * W)
    (optimizer : Optimizer W) (scheduler : Scheduler W)
    (data_iter : list Batch) (mode : string) (accum_iter : Z)
    (train_state : TrainState) (s : machine W (epoch_call Out LossNode)) :
  is_train mode = true -> accum_iter <> 0 -> data_iter <> [] ->
  Forall (fun batch => batch_target batch <> None) data_iter ->
  let res := run_epoch model_forward loss_compute backward optimizer
               scheduler data_iter mode accum_iter train_state s in
  exists new q,
    calls res.2 = calls s ++ new
    /\ map kind_of new
       = epoch_kinds_from mode accum_iter 0 (length data_iter)
    /\ Forall (fun c => forall out y norm loss,
                 c = CallLossCompute out y norm loss ->
                 exists batch bt,
                   batch ∈ data_iter /\ batch_target batch = Some bt
                   /\ y = bt_tgt_y bt /\ norm = bt_ntokens bt) new
    /\ res.1
       = Ok (q, train_state_after mode accum_iter 0 data_iter train_state).
Proof.
  intros Hm Ha Hne Hall res. subst res. unfold run_epoch.
  unfold mbind, M_MBind, M_bind, mret, M_MRet, M_ret, lift.
  set (l0 := {| l_total_tokens := 0; l_total_loss := 0%Q; l_tokens := 0;
                l_n_accum := 0; l_train_state := train_state |}).
  destruct (run_epoch_loop_spec model_forward loss_compute backward optimizer
              scheduler mode accum_iter data_iter 0 l0 s)
    as (new & Hc & _ & Hn & H).
  destruct (run_epoch_loop _ _ _ _ _ _ _ _ _ _ s) as [[l1|e] s1];
    cbn [fst snd] in Hc, H |- *.
  - destruct H as (Hk & _ & _ & Hs). rewrite Hs.
    unfold mean_loss. destruct data_iter as [|b bs]; [done|].
    destruct (l_total_tokens l1 =? 0); cbn [fst snd];
      (do 2 eexists; split_and!; [done..|reflexivity]).
  - exfalso. destruct H as [H|[_ H]]; [|done].
    apply Exists_exists in H as (b & Hb & Hnone).
    by apply (proj1 (Forall_forall _ _) Hall b Hb).
Qed.

(** [loss_node.backward] and [scheduler.step] are called once for each
    batch, and [optimizer.zero_grad] as often as [optimizer.step]. *)
Lemma epoch_kinds_from_counts (mode : string) (accum_iter i : Z) (n : nat) :
  is_train mode = true ->
  count_kind KBackward (epoch_kinds_from mode accum_iter i n) = n
  /\ count_kind KSchedulerStep (epoch_kinds_from mode accum_iter i n) = n
  /\ count_kind KZeroGrad (epoch_kinds_from mode accum_iter i n)
     = count_kind KOptimizerStep (epoch_kinds_from mode accum_iter i n).
Proof.
  intros Hm. revert i. induction n as [|n IH]; intros i; [done|].
  destruct (IH (i + 1)) as (Hb & Hs & Hz).
  cbn [epoch_kinds_from]. unfold count_kind in *.
  rewrite !filter_app, !length_app, Hb, Hs, Hz.
  unfold epoch_kinds. rewrite Hm, andb_true_r.
  destruct (i mod accum_iter =? 0), (i mod 40 =? 1); done.
Qed.

(** The first iteration already steps the optimizer. *)
Lemma epoch_kinds_first (mode : string) (accum_iter : Z) :
  is_train mode = true -> accum_iter <> 0 ->
  epoch_kinds mode accum_iter 0
  = [KForward; KLossCompute; KBackward; KOptimizerStep; KZeroGrad;
     KSchedulerStep].
Proof.
  intros Hm Ha. unfold epoch_kinds. rewrite Hm. by rewrite Z.mod_0_l.
Qed.

(** C9. With [accum_iter = 2] and the three batches of the digits 0, 1
    and 2 (tokens 6, 7 and 8), the optimizer steps twice: first on the
    gradient of batch 0 alone, then on the gradients of batches 1 and 2. *)
Theorem run_epoch_accumulates_from_first_batch :
  exists data_iter,
    traverse digit_batch [0; 1; 2] = Ok data_iter
    /\ let res := run_epoch ledger_forward ledger_loss_compute ledger_backward
                    ledger_optimizer ledger_scheduler data_iter "train" 2
                    {| step := 0; accum_step := 0; samples := 0; tokens := 0 |}
                    {| world := {| pending := []; applied := [] |};
                       calls := [] |} in
       applied (world res.2) = [[6]; [7; 8]]
       /\ map kind_of (calls res.2)
          = [KForward; KLossCompute; KBackward; KOptimizerStep; KZeroGrad;
             KSchedulerStep;
             KForward; KLossCompute; KBackward; KSchedulerStep; KPrint;
             KForward; KLossCompute; KBackward; KOptimizerStep; KZeroGrad;
             KSchedulerStep]
       /\ exists q,
            res.1 = Ok (q, {| step := 3; accum_step := 2; samples := 3;
                              tokens := 6 |}).
Proof.
  eexists. split; [reflexivity|]. vm_compute.
  split_and!; [reflexivity..|]. eexists. reflexivity.
Qed.

(** ** Greedy decoding *)

Lemma traverse_ok {A B} (f : A -> result B) (g : A -> B) (l : list A) :
  (forall a, a ∈ l -> f a = Ok (g a)) -> traverse f l = Ok (g <$> l).
Proof.
  induction l as [|a l IH]; intros H; [done|].
  cbn [traverse]. rewrite (H a) by (apply elem_of_cons; auto).
  rewrite IH by (intros b Hb; apply H, elem_of_cons; auto). done.
Qed.

Lemma broadcast_same {A B C} (f : A -> B -> result C) (g : A -> B -> C)
    (l1 : list A) (l2 : list B) :
  length l1 = length l2 ->
  (forall a b, f a b = Ok (g a b)) ->
  broadcast f l1 l2 = Ok (zip_with g l1 l2).
Proof.
  intros Hlen Hf. unfold broadcast. rewrite decide_True by done.
  rewrite (traverse_ok _ (fun p => g p.1 p.2)) by (intros; apply Hf).
  f_equal. clear. revert l2.
  induction l1 as [|a l1 IH]; intros [|b l2]; try done.
  cbn [zip zip_with fmap list_fmap]. simpl. f_equal. apply IH.
Qed.

Lemma broadcast_one_l {A B C} (f : A -> B -> result C) (g : A -> B -> C)
    (a : A) (l2 : list B) :
  (forall b, b ∈ l2 -> f a b = Ok (g a b)) ->
  broadcast f [a] l2 = Ok (g a <$> l2).
Proof.
  intros Hf. unfold broadcast. destruct (decide (length [a] = length l2)) as [H|H].
  - destruct l2 as [|b [|? ?]]; try done.
    cbn [zip zip_with traverse fst snd]. rewrite Hf by (apply elem_of_cons; auto).
    done.
  - by apply traverse_ok.
Qed.

Lemma and3_decoder_mask (ys : list Z) (pad : Z) :
  and3 [ne2 [ys] pad] (subsequent_mask (size_last [ys]))
  = Ok (decoder_mask ys pad).
Proof.
  unfold and3, decoder_mask, size_last.
  pose proof (subsequent_mask_shape (length ys)) as [Hl Hm].
  destruct (subsequent_mask (length ys)) as [|m [|? ?]]; try done.
  apply Forall_cons in Hm as [[Hm1 Hm2] _]. cbn [hd].
  unfold ne2, map2. cbn [fmap list_fmap].
  set (row := (fun v => negb (v =? pad)) <$> ys).
  unfold broadcast at 1. rewrite decide_True by done.
  cbn [zip zip_with traverse fst snd].
  rewrite (broadcast_one_l _ (zip_with andb)); [done|].
  intros m_i Hi. apply broadcast_same; [|done].
  unfold row. rewrite length_fmap.
  symmetry. exact (proj1 (Forall_forall _ _) Hm2 m_i Hi).
Qed.

(** Entry [(i, j)] of the mask: position [j] is no padding and [j <= i]. *)
Lemma decoder_mask_at (ys : list Z) (pad : Z) (i j : nat) (v : Z) :
  (i < length ys)%nat -> ys !! j = Some v ->
  at3 (decoder_mask ys pad) 0 i j
  = Some (negb (v =? pad) && bool_decide (j <= i)%nat).
Proof.
  intros Hi Hj. pose proof (lookup_lt_Some _ _ _ Hj) as Hj'.
  pose proof (subsequent_mask_at (length ys) i j Hi Hj') as Hat.
  unfold decoder_mask, at3, at2 in *.
  destruct (subsequent_mask (length ys)) as [|m ?]; [done|].
  cbn [mbind option_bind lookup list_lookup hd] in *.
  rewrite list_lookup_fmap.
  destruct (m !! i) as [m_i|]; [|done].
  cbn [mbind option_bind fmap option_fmap option_map] in *.
  rewrite lookup_zip_with, list_lookup_fmap, Hj, Hat. done.
Qed.

(** [torch.max] on a row: the scan keeps the first maximal value seen
    so far, [pre] being the part of the row already scanned. *)
Lemma argmax_from_spec (l pre : list Q) (best : Q) (best_i : nat) :
  pre !! best_i = Some best ->
  (forall j q', pre !! j = Some q' -> (q' <= best)%Q) ->
  (forall j q', (j < best_i)%nat -> pre !! j = Some q' -> (q' < best)%Q) ->
  exists q,
    (pre ++ l) !! argmax_from best best_i (length pre) l = Some q
    /\ (forall j q', (pre ++ l) !! j = Some q' -> (q' <= q)%Q)
    /\ (forall j q', (j < argmax_from best best_i (length pre) l)%nat ->
                     (pre ++ l) !! j = Some q' -> (q' < q)%Q).
Proof.
  revert pre best best_i.
  induction l as [|x l IH]; intros pre best best_i Hb Hle Hlt.
  - cbn [argmax_from]. rewrite app_nil_r. eauto.
  - cbn [argmax_from].
    replace (S (length pre)) with (length (pre ++ [x]))
      by (rewrite length_app; cbn; lia).
    rewrite (cons_middle x pre l), app_assoc.
    destruct (Qlt_le_dec best x) as [Hx|Hx]; apply IH.
    + by rewrite lookup_app_r, Nat.sub_diag by lia.
    + intros j q' Hj. apply lookup_app_Some in Hj as [Hj|[_ Hj]].
      * apply Qlt_le_weak, Qle_lt_trans with best; [by eapply Hle|done].
      * apply list_lookup_singleton_Some in Hj as [_ <-]. apply Qle_refl.
    + intros j q' Hj Hq. rewrite lookup_app_l in Hq by done.
      apply Qle_lt_trans with best; [by eapply Hle|done].
    + rewrite lookup_app_l; [done|]. by eapply lookup_lt_Some.
    + intros j q' Hj. apply lookup_app_Some in Hj as [Hj|[_ Hj]].
      * by eapply Hle.
      * by apply list_lookup_singleton_Some in Hj as [_ <-].
    + intros j q' Hj Hq.
      rewrite lookup_app_l in Hq
        by (apply lookup_lt_Some in Hb; lia).
      by eapply Hlt.
Qed.

Lemma torch_argmax_spec (row : list Q) :
  row <> [] -> exists w, torch_argmax row = Ok w /\ is_first_max row w.
Proof.
  destruct row as [|x l]; [done|]. intros _. cbn [torch_argmax].
  eexists. split; [reflexivity|]. split; [lia|]. rewrite Nat2Z.id.
  apply (argmax_from_spec l [x] x 0).
  - done.
  - intros [|j] q' Hj; [|done]. injection Hj as <-. apply Qle_refl.
  - intros j q' Hj. lia.
Qed.

Lemma py_getitem_last {A} (m : list A) (row : A) :
  last m = Some row -> py_getitem m (-1) = Ok row.
Proof.
  intros H. rewrite last_lookup in H.
  pose proof (lookup_lt_Some _ _ _ H) as Hlt.
  unfold py_getitem, len. cbn [Z.ltb Z.compare].
  rewrite (proj2 (Z.ltb_ge _ 0)) by lia.
  replace (Z.to_nat (-1 + Z.of_nat (length m))) with (pred (length m)) by lia.
  by rewrite H.
Qed.

(** The next word is the argmax at the last position, whenever the
    generator's output can be read. *)
Lemma next_word_of_spec (prob : tensor3 Q) :
  readable prob ->
  exists w, next_word_of prob = Ok w /\ argmax_at_last prob w.
Proof.
  intros [Hne Hall]. unfold next_word_of.
  rewrite (traverse_ok _ (fun m => default [] (last m))).
  2:{ intros m Hm.
      destruct (proj1 (Forall_forall _ _) Hall m Hm) as (row & Hl & _).
      rewrite Hl. by apply py_getitem_last. }
  cbn [mbind result_bind].
  rewrite (traverse_ok _ (fun row => Z.of_nat (argmax_from (default 0%Q (head row)) 0 1 (tail row)))).
  2:{ intros row Hr. apply list_elem_of_fmap in Hr as (m & -> & Hm).
      destruct (proj1 (Forall_forall _ _) Hall m Hm) as (row & Hl & Hrow).
      rewrite Hl. cbn [default]. by destruct row. }
  cbn [mbind result_bind].
  destruct prob as [|m prob]; [done|].
  apply Forall_cons in Hall as [(row & Hl & Hrow) _].
  rewrite !fmap_cons. unfold py_getitem. cbn [Z.ltb Z.compare Z.to_nat lookup list_lookup].
  rewrite Hl. cbn [default].
  destruct (torch_argmax_spec row Hrow) as (w & Hw & Hmax).
  destruct row as [|x l]; [done|]. cbn [torch_argmax head tail default] in *.
  injection Hw as <-.
  eexists. split; [reflexivity|]. exists m, (x :: l). done.
Qed.

Section GreedyDecodeProps.
Context {W Src SrcMask Memory Out : Type}.
Variable model_encode : Src -> SrcMask -> W -> Memory * W.
Variable model_decode :
  Memory -> SrcMask -> tensor2 Z -> tensor3 bool -> W -> Out * W.
Variable model_generator : Out -> W -> tensor3 Q * W.

(** The generator returns a tensor [torch.max(prob[:, -1], dim=1)] can
    read: at least one batch row, one position and one class. *)
Hypothesis generator_shape :
  forall out w, readable (model_generator out w).1.

Let body := greedy_decode_body (Src:=Src) model_decode model_generator.
Let loop := greedy_decode_loop (Src:=Src) model_decode model_generator.

Ltac run_M :=
  unfold mbind, M_MBind, M_bind, mret, M_MRet, M_ret, lift, call;
  cbn beta iota delta [world calls fst snd].

Lemma greedy_decode_body_spec (memory : Memory) (src_mask : SrcMask)
    (pad : Z) (ys : list Z)
    (s : machine W (decode_call Src SrcMask Memory Out)) :
  exists next_word step,
    body memory src_mask pad [ys] s
    = (Ok [ys ++ [next_word]],
       {| world := (body memory src_mask pad [ys] s).2.(world);
          calls := calls s ++ step |})
    /\ is_step memory src_mask pad ys next_word step.
Proof.
  unfold body, greedy_decode_body, is_step.
  rewrite and3_decoder_mask. run_M.
  destruct (model_decode _ _ _ _ _) as [out w1]. run_M.
  pose proof (generator_shape out w1) as Hshape.
  destruct (model_generator out w1) as [prob w2]. run_M.
  cbn [fst] in Hshape.
  destruct (next_word_of_spec prob Hshape) as (nw & Hnw & Hmax).
  rewrite Hnw. unfold cat_dim1.
  exists nw. eexists. rewrite <- app_assoc. split; [reflexivity|].
  eauto.
Qed.

Lemma greedy_decode_loop_spec (memory : Memory) (src_mask : SrcMask)
    (pad : Z) (n : nat) :
  forall (ys : list Z) (s : machine W (decode_call Src SrcMask Memory Out)),
  exists new steps,
    (loop n memory src_mask pad [ys] s).1 = Ok [ys ++ new]
    /\ calls (loop n memory src_mask pad [ys] s).2 = calls s ++ concat steps
    /\ length new = n /\ length steps = n
    /\ forall k step,
         steps !! k = Some step ->
         exists next_word,
           new !! k = Some next_word
           /\ is_step memory src_mask pad (ys ++ take k new) next_word step.
Proof.
  induction n as [|n IH]; intros ys s.
  - exists [], []. rewrite !app_nil_r. split_and!; done.
  - unfold loop. cbn [greedy_decode_loop]. run_M.
    destruct (greedy_decode_body_spec memory src_mask pad ys s)
      as (w & step & E & Hstep).
    unfold body in E. rewrite E.
    set (s1 := {| world := _; calls := calls s ++ step |}).
    destruct (IH (ys ++ [w]) s1) as (new & steps & Hr & Hc & Hn & Hs & Hk).
    unfold loop in Hr, Hc.
    exists (w :: new), (step :: steps).
    rewrite Hr, Hc. subst s1. cbn [calls concat length].
    rewrite <- !app_assoc. split_and!; [done|done|lia|lia|].
    intros [|k] stp Hlook.
    + injection Hlook as <-. exists w. split; [done|].
      cbn [take]. by rewrite app_nil_r.
    + destruct (Hk k stp Hlook) as (nw & Hnw & Hstp).
      exists nw. split; [done|].
      cbn [take]. by rewrite (cons_middle w), app_assoc.
Qed.

End GreedyDecodeProps.


(** The decoder goes on after the end symbol. *)
Example greedy_decode_end_symbol :
  (greedy_decode end_encode end_decode end_generator
     [[1; 7; 2]] [[[true; true; true]]] 4 1 0
     {| world := tt; calls := [] |}).1
  = Ok [[1; 2; 2; 2]].
Proof. reflexivity. Qed.

(** * Further properties *)

(** ** Tokenizer, on its whole domain *)

Lemma py_in_elem_of (x : Z) (l : list Z) : py_in x l = true <-> x ∈ l.
Proof.
  unfold py_in. rewrite existsb_exists. split.
  - intros (y & Hy & E). apply Z.eqb_eq in E as ->. by apply list_elem_of_In.
  - intros H. exists x. split; [by apply list_elem_of_In|apply Z.eqb_refl].
Qed.

Lemma elem_of_alphabet (c : pychar) :
  c ∈ alphabet
  <-> py_in c operators = true \/ 48 <= c <= 57 \/ 65 <= c <= 74.
Proof.
  rewrite <- (py_in_elem_of c alphabet).
  unfold py_in. cbn [existsb alphabet operators str list_ascii_of_string map].
  change (ch "~") with 126. change (ch "^") with 94. change (ch "$") with 36.
  change (ch "+") with 43. change (ch "-") with 45. change (ch "=") with 61.
  change (ch "0") with 48. change (ch "1") with 49. change (ch "2") with 50.
  change (ch "3") with 51. change (ch "4") with 52. change (ch "5") with 53.
  change (ch "6") with 54. change (ch "7") with 55. change (ch "8") with 56.
  change (ch "9") with 57. change (ch "A") with 65. change (ch "B") with 66.
  change (ch "C") with 67. change (ch "D") with 68. change (ch "E") with 69.
  change (ch "F") with 70. change (ch "G") with 71. change (ch "H") with 72.
  change (ch "I") with 73. change (ch "J") with 74.
  rewrite !orb_false_r, !orb_true_iff, !Z.eqb_eq. lia.
Qed.

Lemma py_index_Ok (l : list Z) (x i : Z) :
  py_index l x = Ok i -> 0 <= i < len l /\ l !! Z.to_nat i = Some x.
Proof.
  revert i. induction l as [|y l IH]; intros i; [done|].
  cbn [py_index]. destruct (y =? x) eqn:E.
  - apply Z.eqb_eq in E as ->. intros [= <-]. unfold len. simpl. split; [lia|done].
  - destruct (py_index l x) as [j|e]; [|done]. cbn [mbind result_bind].
    intros [= <-]. destruct (IH j eq_refl) as [Hj Hl].
    unfold len in *. cbn [length]. split; [lia|].
    replace (Z.to_nat (j + 1)) with (S (Z.to_nat j)) by lia. done.
Qed.

Lemma py_getitem_elem_of {A} (l : list A) (i : Z) (a : A) :
  py_getitem l i = Ok a -> a ∈ l.
Proof.
  unfold py_getitem. destruct (_ <? 0); [done|].
  destruct (l !! _) eqn:E; [|done]. intros [= <-].
  by eapply list_elem_of_lookup_2.
Qed.

Lemma to_token_operator (c : pychar) :
  py_in c operators = true ->
  exists i, to_token c = Ok i /\ 0 <= i < 6.
Proof.
  intros H. unfold to_token. rewrite H.
  destruct (py_in_index _ _ H) as [i Hi]. exists i. split; [done|].
  by destruct (py_index_Ok _ _ _ Hi) as [? _].
Qed.

Lemma to_token_other (c : pychar) :
  py_in c operators = false ->
  to_token c = if 57 <? c
               then if c <? 75 then Ok (c - 49) else Raise AssertionError
               else Ok (c - 42).
Proof.
  intros H. unfold to_token. rewrite H.
  change voca_size with 26. change (len operators) with 6.
  unfold ord. change (ch "9") with 57. change (ch "A") with 65.
  change (ch "0") with 48.
  destruct (57 <? c) eqn:H9.
  - destruct (c <? 75) eqn:HK.
    + apply Z.ltb_lt in HK. rewrite (proj2 (Z.ltb_lt _ _)) by lia. f_equal. lia.
    + apply Z.ltb_ge in HK. by rewrite (proj2 (Z.ltb_ge _ _)) by lia.
  - apply Z.ltb_ge in H9. rewrite (proj2 (Z.ltb_lt _ _)) by lia. f_equal. lia.
Qed.

Lemma from_token_low (t : Z) : t < 6 -> from_token t = py_getitem operators t.
Proof.
  intros H. unfold from_token. change (len operators) with 6.
  by rewrite (proj2 (Z.ltb_lt _ _)).
Qed.

Lemma from_token_digit (t : Z) : 6 <= t <= 15 -> from_token t = Ok (t + 42).
Proof.
  intros H. unfold from_token. change (len operators) with 6.
  rewrite (proj2 (Z.ltb_ge _ _)) by lia.
  change (to_token (ch "9")) with (Ok (A:=Z) 15). cbn [mbind result_bind].
  rewrite (proj2 (Z.ltb_ge _ _)) by lia.
  unfold chr, ord. change (ch "0") with 48.
  replace (_ && _) with true by (symmetry; apply andb_true_iff; lia).
  f_equal. lia.
Qed.

Lemma from_token_high (t : Z) :
  16 <= t ->
  from_token t = if t <? 1114063 then Ok (t + 49) else Raise ValueError.
Proof.
  intros H. unfold from_token. change (len operators) with 6.
  rewrite (proj2 (Z.ltb_ge _ _)) by lia.
  change (to_token (ch "9")) with (Ok (A:=Z) 15). cbn [mbind result_bind].
  rewrite (proj2 (Z.ltb_lt _ _)) by lia.
  unfold chr, ord. change (ch "A") with 65.
  destruct (t <? 1114063) eqn:E.
  - apply Z.ltb_lt in E.
    replace (_ && _) with true by (symmetry; apply andb_true_iff; lia).
    f_equal. lia.
  - apply Z.ltb_ge in E.
    replace (_ && _) with false by (symmetry; apply andb_false_iff; lia).
    done.
Qed.

(** An id that [to_token] returns is below [voca_size]. *)
Lemma to_token_lt (c : pychar) (t : Z) : to_token c = Ok t -> t < 26.
Proof.
  destruct (py_in c operators) eqn:H.
  - destruct (to_token_operator c H) as (i & -> & Hi). intros [= <-]. lia.
  - rewrite (to_token_other c H).
    destruct (57 <? c) eqn:H9; [destruct (c <? 75) eqn:HK|];
      intros [= <-]; lia.
Qed.

(** X1. to_token followed by from_token gives the character back exactly for
    the 26 characters of the vocabulary ([~^$+-=], the digits, [A] to [J]):
    for every other character the encoder raises or the decoder returns a
    different character. *)
Theorem to_from_token_iff (c : pychar) :
  to_token c ≫= from_token = Ok c <-> c ∈ alphabet.
Proof.
  split; [|exact (proj1 (Forall_forall _ _) to_token_alphabet c)].
  intros H. apply elem_of_alphabet.
  destruct (py_in c operators) eqn:Hop; [by left|right].
  rewrite (to_token_other c Hop) in H.
  destruct (57 <? c) eqn:H9.
  - apply Z.ltb_lt in H9. destruct (c <? 75) eqn:HK; [|done].
    apply Z.ltb_lt in HK. cbn [mbind result_bind] in H.
    destruct (decide (65 <= c)) as [?|Hlow]; [lia|].
    rewrite from_token_digit in H by lia. injection H. lia.
  - apply Z.ltb_ge in H9. cbn [mbind result_bind] in H.
    destruct (decide (48 <= c)) as [?|Hlow]; [lia|].
    rewrite from_token_low in H by lia.
    apply py_getitem_elem_of, py_in_elem_of in H. congruence.
Qed.

(** X2. from_token followed by to_token gives the id back exactly for the ids
    [0 <= t < voca_size]; negative ids and ids from [voca_size] on are not
    fixed by the round trip. *)
Theorem from_to_token_iff (t : Z) :
  from_token t ≫= to_token = Ok t <-> 0 <= t < voca_size.
Proof.
  change voca_size with 26. split.
  - intros H. destruct (from_token t) as [c|e] eqn:Hf; [|done].
    cbn [mbind result_bind] in H. pose proof (to_token_lt c t H) as Hlt.
    split; [|done].
    destruct (decide (0 <= t)) as [?|Hneg]; [done|].
    rewrite from_token_low in Hf by lia.
    apply py_getitem_elem_of, py_in_elem_of in Hf.
    destruct (to_token_operator c Hf) as (i & Hi & ?). rewrite Hi in H.
    injection H. lia.
  - intros H.
    assert (Hn : (Z.to_nat t) ∈ seq 0 26) by (apply elem_of_seq; lia).
    pose proof (proj1 (Forall_forall _ _) from_token_ids _ Hn) as E.
    cbv beta in E. by rewrite Z2Nat.id in E by lia.
Qed.

Lemma to_token_alphabet_range (c : pychar) :
  c ∈ alphabet ->
  exists t, to_token c = Ok t /\ 0 <= t < voca_size /\ from_token t = Ok c.
Proof.
  intros Hc. pose proof (proj1 (Forall_forall _ _) to_token_alphabet c Hc) as H.
  cbv beta in H.
  destruct (to_token c) as [t|e] eqn:Ht; [|done].
  cbn [mbind result_bind] in H. exists t. split; [done|]. split; [|done].
  change voca_size with 26. split; [|by eapply to_token_lt].
  destruct (decide (0 <= t)) as [?|Hneg]; [done|].
  rewrite from_token_low in H by lia.
  apply py_getitem_elem_of, py_in_elem_of in H.
  destruct (to_token_operator c H) as (i & Hi & ?). rewrite Hi in Ht.
  injection Ht. lia.
Qed.

Lemma from_token_range (t : Z) :
  0 <= t < voca_size ->
  exists c, from_token t = Ok c /\ c ∈ alphabet /\ to_token c = Ok t.
Proof.
  change voca_size with 26. intros Ht.
  assert (Hn : (Z.to_nat t) ∈ seq 0 26) by (apply elem_of_seq; lia).
  pose proof (proj1 (Forall_forall _ _) from_token_ids _ Hn) as E.
  cbv beta in E. rewrite Z2Nat.id in E by lia.
  destruct (from_token t) as [c|e] eqn:Hf; [|done].
  cbn [mbind result_bind] in E. exists c. split; [done|]. split; [|done].
  apply elem_of_alphabet.
  destruct (decide (t < 6)) as [Hlow|Hlow].
  - left. rewrite from_token_low in Hf by done.
    by apply py_getitem_elem_of, py_in_elem_of in Hf.
  - right. destruct (decide (t <= 15)).
    + rewrite from_token_digit in Hf by lia. injection Hf. lia.
    + rewrite from_token_high in Hf by lia.
      rewrite (proj2 (Z.ltb_lt _ _)) in Hf by lia. injection Hf. lia.
Qed.

Lemma Forall_alphabet_bool (text : pystr) :
  forallb (fun c => py_in c alphabet) text = true ->
  Forall (fun c => c ∈ alphabet) text.
Proof.
  rewrite forallb_forall, Forall_forall. intros H c Hc.
  apply py_in_elem_of, H. by apply list_elem_of_In.
Qed.

Lemma to_tokens_alphabet (text : pystr) :
  Forall (fun c => c ∈ alphabet) text ->
  exists tokens,
    to_tokens text = Ok tokens
    /\ length tokens = length text
    /\ Forall (fun t => 0 <= t < voca_size) tokens
    /\ from_tokens tokens = Ok text.
Proof.
  induction 1 as [|c text Hc _ (tokens & E & L & R & F)].
  - exists []. by split_and!.
  - destruct (to_token_alphabet_range c Hc) as (t & Et & Rt & Ft).
    exists (t :: tokens). cbn [to_tokens from_tokens].
    rewrite Et, E, Ft, F. cbn [mbind result_bind length].
    split_and!; [done|lia|by constructor|done].
Qed.

(** X3. to_tokens on a text made of vocabulary characters succeeds, keeps
    the length, produces only ids in [0, voca_size), and from_tokens of
    the result is the text again. *)
Theorem to_tokens_round_trip (text : pystr) :
  Forall (fun c => c ∈ alphabet) text ->
  exists tokens,
    to_tokens text = Ok tokens
    /\ length tokens = length text
    /\ Forall (fun t => 0 <= t < voca_size) tokens
    /\ from_tokens tokens = Ok text.
Proof. exact (to_tokens_alphabet text). Qed.

Lemma to_tokens_round_trip_witness :
  exists tokens,
    to_tokens (str "100+101=") = Ok tokens
    /\ length tokens = length (str "100+101=")
    /\ Forall (fun t => 0 <= t < voca_size) tokens
    /\ from_tokens tokens = Ok (str "100+101=").
Proof.
  apply (to_tokens_round_trip (str "100+101=")).
  apply Forall_alphabet_bool. reflexivity.
Defined.

Lemma from_tokens_range (tokens : list Z) :
  Forall (fun t => 0 <= t < voca_size) tokens ->
  exists text,
    from_tokens tokens = Ok text
    /\ length text = length tokens
    /\ Forall (fun c => c ∈ alphabet) text
    /\ to_tokens text = Ok tokens.
Proof.
  induction 1 as [|t tokens Ht _ (text & E & L & R & F)].
  - exists []. by split_and!.
  - destruct (from_token_range t Ht) as (c & Ec & Rc & Fc).
    exists (c :: text). cbn [to_tokens from_tokens].
    rewrite Ec, E, Fc, F. cbn [mbind result_bind length].
    split_and!; [done|lia|by constructor|done].
Qed.

(** X4. from_tokens on ids in [0, voca_size) succeeds, keeps the length,
    produces only vocabulary characters, and to_tokens of the result is the
    list of ids again. *)
Theorem from_tokens_round_trip (tokens : list Z) :
  Forall (fun t => 0 <= t < voca_size) tokens ->
  exists text,
    from_tokens tokens = Ok text
    /\ length text = length tokens
    /\ Forall (fun c => c ∈ alphabet) text
    /\ to_tokens text = Ok tokens.
Proof. exact (from_tokens_range tokens). Qed.

Lemma from_tokens_round_trip_witness :
  exists text,
    from_tokens [1; 7; 3; 8; 5; 2] = Ok text
    /\ length text = length [1; 7; 3; 8; 5; 2]
    /\ Forall (fun c => c ∈ alphabet) text
    /\ to_tokens text = Ok [1; 7; 3; 8; 5; 2].
Proof.
  apply (from_tokens_round_trip [1; 7; 3; 8; 5; 2]).
  change voca_size with 26. repeat (constructor; [lia|]). constructor.
Defined.

(** X5. to_tokens raises exactly when the text contains a character that is
    no operator and whose code point is at or above that of ['K'] (75):
    every other text, also one with spaces or lower characters, is encoded
    without error. *)
Theorem to_tokens_raises_iff (text : pystr) :
  (exists e, to_tokens text = Raise e)
  <-> Exists (fun c => py_in c operators = false /\ 75 <= c) text.
Proof.
  induction text as [|c text IH].
  - split; [intros [e ?]; done|intros H; by apply Exists_nil in H].
  - cbn [to_tokens]. rewrite Exists_cons, <- IH, <- to_token_raises_iff.
    destruct (to_token c) as [t|e]; cbn [mbind result_bind].
    + destruct (to_tokens text) as [ts|e]; cbn [mbind result_bind].
      * split; [intros [? ?]; done|intros [[? ?]|[? ?]]; done].
      * split; [eauto|eauto].
    + split; eauto.
Qed.

(** ** Elementary-school addition, further *)

Lemma sum_two_chars_comm (c1 c2 : pychar) :
  sum_two_chars c1 c2 = sum_two_chars c2 c1.
Proof. unfold sum_two_chars. by rewrite (Z.add_comm (ord c1 - _)). Qed.

Lemma sum_two_str_loop_comm (text1 text2 res : pystr) :
  sum_two_str_loop (zip text2 text1) res
  = sum_two_str_loop (zip text1 text2) res.
Proof.
  revert text2 res.
  induction text1 as [|a t1 IH]; intros [|b t2] res; try done.
  cbn [zip zip_with sum_two_str_loop]. rewrite (sum_two_chars_comm b a).
  destruct (sum_two_chars a b) as [c|e]; cbn [mbind result_bind]; [|done].
  apply IH.
Qed.

(** X6. sum_two_str is symmetric: swapping the two arguments swaps the two
    padded texts and leaves the digit-wise sum unchanged. *)
Theorem sum_two_str_comm (str1 str2 : pystr) :
  sum_two_str str2 str1
  = (r ← sum_two_str str1 str2; Ok (r.1.2, r.1.1, r.2)).
Proof.
  unfold sum_two_str. rewrite (Z.max_comm (len str2)), sum_two_str_loop_comm.
  by destruct (sum_two_str_loop _ _).
Qed.

Lemma digit_sum_char_alphabet (c1 c2 : pychar) :
  is_digit c1 -> is_digit c2 ->
  digit_sum_char c1 c2 ∈ alphabet /\ digit_sum_char c1 c2 <> ch "A".
Proof.
  intros H1 H2. split; [|by apply digit_sum_char_not_A].
  apply elem_of_alphabet. right. revert H1 H2.
  unfold is_digit, digit_sum_char.
  destruct (_ <=? 9) eqn:Hle; [apply Z.leb_le in Hle|apply Z.leb_gt in Hle]; lia.
Qed.

Lemma Forall_zip_with_digits (text1 text2 : pystr) :
  Forall is_digit text1 -> Forall is_digit text2 ->
  Forall (fun c => c ∈ alphabet /\ c <> ch "A")
         (zip_with digit_sum_char text1 text2).
Proof.
  intros H1. revert text2.
  induction H1 as [|a t1 Ha _ IH]; intros t2 H2; [constructor|].
  destruct H2 as [|b t2 Hb H2]; [constructor|].
  cbn [zip_with]. constructor; [by apply digit_sum_char_alphabet|by apply IH].
Qed.

Lemma sum_two_str_digits_alphabet (str1 str2 : pystr) :
  Forall is_digit str1 -> Forall is_digit str2 ->
  exists text1 text2 res,
    sum_two_str str1 str2 = Ok (text1, text2, res)
    /\ len text1 = Z.max (len str1) (len str2)
    /\ len text2 = Z.max (len str1) (len str2)
    /\ len res = Z.max (len str1) (len str2)
    /\ Forall is_digit text1 /\ Forall is_digit text2
    /\ Forall (fun c => c ∈ alphabet /\ c <> ch "A") res.
Proof.
  intros H1 H2.
  destruct (sum_two_str_digits str1 str2 H1 H2) as (L1 & L2 & E).
  do 3 eexists. split; [exact E|].
  assert (D1 := padding_str_left_digits str1 (Z.max (len str1) (len str2)) H1).
  assert (D2 := padding_str_left_digits str2 (Z.max (len str1) (len str2)) H2).
  split_and!; try done.
  - unfold len in *. rewrite length_zip_with. lia.
  - by apply Forall_zip_with_digits.
Qed.

(** X7. On two digit strings sum_two_str succeeds; the two padded texts and
    the sum all have the length of the longer argument, the padded texts
    are digit strings, and every character of the sum is a vocabulary
    character other than ['A'] (so the sum is always tokenizable, and a
    digit sum of ten is never written). *)
Theorem sum_two_str_tokenizable (str1 str2 : pystr) :
  Forall is_digit str1 -> Forall is_digit str2 ->
  exists text1 text2 res,
    sum_two_str str1 str2 = Ok (text1, text2, res)
    /\ len text1 = Z.max (len str1) (len str2)
    /\ len text2 = Z.max (len str1) (len str2)
    /\ len res = Z.max (len str1) (len str2)
    /\ Forall is_digit text1 /\ Forall is_digit text2
    /\ Forall (fun c => c ∈ alphabet /\ c <> ch "A") res.
Proof. exact (sum_two_str_digits_alphabet str1 str2). Qed.

Lemma Forall_digit_bool (text : pystr) :
  forallb (fun c => (48 <=? c) && (c <=? 57)) text = true ->
  Forall is_digit text.
Proof.
  rewrite forallb_forall, Forall_forall. intros H c Hc.
  apply list_elem_of_In, H, andb_true_iff in Hc. unfold is_digit. lia.
Qed.

Lemma sum_two_str_tokenizable_witness :
  exists text1 text2 res,
    sum_two_str (str "95") (str "7") = Ok (text1, text2, res)
    /\ len text1 = Z.max (len (str "95")) (len (str "7"))
    /\ len text2 = Z.max (len (str "95")) (len (str "7"))
    /\ len res = Z.max (len (str "95")) (len (str "7"))
    /\ Forall is_digit text1 /\ Forall is_digit text2
    /\ Forall (fun c => c ∈ alphabet /\ c <> ch "A") res.
Proof.
  apply (sum_two_str_tokenizable (str "95") (str "7"));
    apply Forall_digit_bool; reflexivity.
Defined.

(** X8. padding_str pads with ['0'] on the left (resp. on the right) up to
    [length] and never shortens: the result has length
    [max(len(text), length)]; with any other [position] the text is
    returned unchanged. *)
Theorem padding_str_spec (text : pystr) (length : Z) :
  let k := Z.to_nat (length - len text) in
  padding_str text length "left" = replicate k (ch "0") ++ text
  /\ padding_str text length "right" = text ++ replicate k (ch "0")
  /\ len (padding_str text length "left") = Z.max (len text) length
  /\ len (padding_str text length "right") = Z.max (len text) length
  /\ (forall position,
        position <> "left"%string -> position <> "right"%string ->
        padding_str text length position = text).
Proof.
  intros k. subst k. unfold padding_str. cbn [String.eqb Ascii.eqb Bool.eqb].
  destruct (len text <? length) eqn:E;
    [apply Z.ltb_lt in E|apply Z.ltb_ge in E].
  - unfold len in *. rewrite !length_app, !length_replicate.
    split_and!; try done; try lia.
    intros p Hl Hr. apply String.eqb_neq in Hl, Hr. by rewrite Hl, Hr.
  - replace (Z.to_nat (length - len text)) with 0%nat by lia.
    cbn [replicate]. rewrite app_nil_r. split_and!; try done; try lia.
    intros p Hl Hr. apply String.eqb_neq in Hl, Hr. by rewrite Hl, Hr.
Qed.

(** ** Batching token sequences *)

Lemma foldl_max_spec (x : Z) (l : list Z) :
  x <= foldl Z.max x l
  /\ Forall (fun y => y <= foldl Z.max x l) l
  /\ (foldl Z.max x l = x \/ foldl Z.max x l ∈ l).
Proof.
  revert x. induction l as [|y l IH]; intros x; cbn [foldl].
  - split_and!; [lia|constructor|by left].
  - destruct (IH (Z.max x y)) as (H1 & H2 & H3). split_and!.
    + lia.
    + constructor; [lia|done].
    + destruct H3 as [H3|H3].
      * rewrite H3.
        destruct (Z.max_spec x y) as [[_ E]|[_ E]]; rewrite E.
        -- right. apply elem_of_cons; auto.
        -- by left.
      * right. apply elem_of_cons; auto.
Qed.

Lemma py_max_spec (l : list Z) (m : Z) :
  py_max l = Ok m -> Forall (fun y => y <= m) l /\ m ∈ l.
Proof.
  destruct l as [|x l]; [done|]. cbn [py_max]. intros [= <-].
  destruct (foldl_max_spec x l) as (H1 & H2 & H3). split.
  - by constructor.
  - destruct H3 as [->|H3]; apply elem_of_cons; auto.
Qed.

Lemma padding_batch_rows (batch : list (list Z)) (length_ : Z) :
  py_max (len <$> batch) = Ok length_ ->
  padding_batch batch
  = Ok ((fun item => [1] ++ item ++ [2]
                     ++ replicate (Z.to_nat (length_ - len item)) 0)
          <$> batch)
  /\ Forall (fun item => len item <= length_) batch
  /\ Exists (fun item => len item = length_) batch
  /\ Forall (fun row => len row = length_ + 2)
       ((fun item => [1] ++ item ++ [2]
                     ++ replicate (Z.to_nat (length_ - len item)) 0)
          <$> batch).
Proof.
  intros Hmax. destruct (py_max_spec _ _ Hmax) as [Hle Hin].
  rewrite Forall_fmap in Hle.
  apply list_elem_of_fmap in Hin as (item & -> & Hitem).
  unfold padding_batch. rewrite Hmax. cbn [mbind result_bind].
  split_and!.
  - by apply traverse_ok.
  - done.
  - apply Exists_exists. eauto.
  - rewrite Forall_fmap. eapply Forall_impl; [exact Hle|].
    intros it Hit. cbv beta in Hit |- *. unfold compose, len in *.
    rewrite !length_app, length_replicate. cbn [length]. lia.
Qed.

(** X9. padding_batch raises only on the empty batch (ValueError from
    [max]); otherwise the result is rectangular, one row per item, every
    row of length [max + 2] where [max] is the length of the longest item,
    and row [i] is the start token, the item, the end token, then pad
    tokens. *)
Theorem padding_batch_spec (batch : list (list Z)) :
  match padding_batch batch with
  | Raise e => batch = [] /\ e = ValueError
  | Ok rows =>
      exists length_,
        py_max (len <$> batch) = Ok length_
        /\ Forall (fun item => len item <= length_) batch
        /\ Exists (fun item => len item = length_) batch
        /\ length rows = length batch
        /\ Forall (fun row => len row = length_ + 2) rows
        /\ forall i item,
             batch !! i = Some item ->
             rows !! i
             = Some ([1] ++ item ++ [2]
                     ++ replicate (Z.to_nat (length_ - len item)) 0)
  end.
Proof.
  destruct batch as [|item0 batch']; [done|].
  set (batch := item0 :: batch').
  destruct (py_max (len <$> batch)) as [m|e] eqn:Hmax; [|done].
  destruct (padding_batch_rows batch m Hmax) as (-> & Hle & Hex & Hrect).
  exists m. split_and!; try done.
  - by rewrite length_fmap.
  - intros i item Hi. by rewrite list_lookup_fmap, Hi.
Qed.

Lemma from_tokens_app (tokens1 tokens2 : list Z) :
  from_tokens (tokens1 ++ tokens2)
  = (a ← from_tokens tokens1; b ← from_tokens tokens2; Ok (a ++ b)).
Proof.
  induction tokens1 as [|t ts IH]; cbn [from_tokens app mbind result_bind].
  - by destruct (from_tokens tokens2).
  - destruct (from_token t) as [c|e]; cbn [mbind result_bind]; [|done].
    rewrite IH. destruct (from_tokens ts) as [a|e]; cbn [mbind result_bind];
      [|done].
    by destruct (from_tokens tokens2).
Qed.

Lemma from_tokens_pad {A} (padding : list A) :
  from_tokens ((fun _ => pad_symbol) <$> padding)
  = Ok (replicate (length padding) (ch "~")).
Proof.
  induction padding as [|a p IH]; [done|].
  rewrite fmap_cons. cbn [from_tokens length replicate]. rewrite IH. done.
Qed.

(** X10. generate_input_batch on a text of vocabulary characters returns a
    one-row tensor of [len(text) + 2 + len(padding)] ids of the vocabulary
    which decodes to ['^'], the text, ['$'] and one ['~'] per character of
    [padding]. *)
Theorem generate_input_batch_spec (text padding : pystr) :
  Forall (fun c => c ∈ alphabet) text ->
  exists row,
    generate_input_batch text padding = Ok [row]
    /\ len row = len text + 2 + len padding
    /\ Forall (fun t => 0 <= t < voca_size) row
    /\ from_tokens row
       = Ok (str "^" ++ text ++ str "$"
             ++ replicate (length padding) (ch "~")).
Proof.
  intros Htext.
  destruct (to_tokens_alphabet text Htext) as (tokens & E & L & R & F).
  unfold generate_input_batch. rewrite E.
  change (to_token (ch "^")) with (Ok (A:=Z) 1).
  change (to_token (ch "$")) with (Ok (A:=Z) 2).
  cbn [mbind result_bind]. eexists. split; [reflexivity|].
  split_and!.
  - unfold len. rewrite !length_app, length_fmap. cbn [length]. lia.
  - change voca_size with 26 in *.
    repeat (apply Forall_app; split); try done.
    + by repeat constructor.
    + by repeat constructor.
    + rewrite Forall_fmap. apply Forall_forall. intros; cbn; unfold pad_symbol; lia.
  - rewrite !from_tokens_app, F, from_tokens_pad. done.
Qed.

Lemma generate_input_batch_spec_witness :
  exists row,
    generate_input_batch (str "100+101=") (str "$$") = Ok [row]
    /\ len row = len (str "100+101=") + 2 + len (str "$$")
    /\ Forall (fun t => 0 <= t < voca_size) row
    /\ from_tokens row
       = Ok (str "^" ++ str "100+101=" ++ str "$"
             ++ replicate (length (str "$$")) (ch "~")).
Proof.
  apply (generate_input_batch_spec (str "100+101=") (str "$$")).
  apply Forall_alphabet_bool. reflexivity.
Defined.

(** ** Arithmetic pairs *)

Lemma uint_chars_digits (d : Decimal.uint) : Forall is_digit (uint_chars d).
Proof.
  induction d; cbn [uint_chars]; constructor; try done;
    unfold is_digit; vm_compute; split; discriminate.
Qed.

Lemma py_str_digits (n : Z) : 0 <= n -> Forall is_digit (py_str n).
Proof.
  intros Hn. unfold py_str. destruct n as [|p|p]; [| |lia];
    apply uint_chars_digits.
Qed.

Lemma is_digit_alphabet (c : pychar) : is_digit c -> c ∈ alphabet.
Proof. intros H. apply elem_of_alphabet. unfold is_digit in H. lia. Qed.

Lemma generate_one_pair1_tokens (left1 left2 : Z) :
  0 <= left1 -> 0 <= left2 ->
  exists text target src_tokens tgt_tokens,
    generate_one_pair1 left1 left2 = Ok (text, target)
    /\ to_tokens text = Ok src_tokens
    /\ to_tokens target = Ok tgt_tokens
    /\ len target = Z.max (len (py_str left1)) (len (py_str left2))
    /\ len src_tokens = 2 * len target + 2
    /\ len tgt_tokens = len target.
Proof.
  intros H1 H2.
  destruct (sum_two_str_digits_alphabet (py_str left1) (py_str left2))
    as (t1 & t2 & res & E & L1 & L2 & L3 & D1 & D2 & D3);
    [by apply py_str_digits..|].
  unfold generate_one_pair1. rewrite E. cbn [mbind result_bind fst snd].
  assert (Htext : Forall (fun c => c ∈ alphabet)
                    (t1 ++ str "+" ++ t2 ++ str "=")).
  { repeat (apply Forall_app; split).
    - eapply Forall_impl; [exact D1|]. apply is_digit_alphabet.
    - by apply Forall_alphabet_bool.
    - eapply Forall_impl; [exact D2|]. apply is_digit_alphabet.
    - by apply Forall_alphabet_bool. }
  assert (Htarget : Forall (fun c => c ∈ alphabet) res).
  { eapply Forall_impl; [exact D3|]. by intros c [? _]. }
  destruct (to_tokens_alphabet _ Htext) as (st & Es & Ls & _).
  destruct (to_tokens_alphabet _ Htarget) as (tt & Et & Lt & _).
  exists (t1 ++ str "+" ++ t2 ++ str "="), res, st, tt.
  split_and!; try done.
  - unfold len in *. rewrite Ls, !length_app. cbn [length str map
      list_ascii_of_string]. lia.
  - unfold len. by rewrite Lt.
Qed.

(** X11. For non-negative integers generate_one_pair1 succeeds and both of
    its strings are tokenizable; the target has the length of the longer
    decimal numeral, and the source text has twice that length plus the
    two characters ['+'] and ['=']. *)
Theorem generate_one_pair1_tokenizable (left1 left2 : Z) :
  0 <= left1 -> 0 <= left2 ->
  exists text target src_tokens tgt_tokens,
    generate_one_pair1 left1 left2 = Ok (text, target)
    /\ to_tokens text = Ok src_tokens
    /\ to_tokens target = Ok tgt_tokens
    /\ len target = Z.max (len (py_str left1)) (len (py_str left2))
    /\ len src_tokens = 2 * len target + 2
    /\ len tgt_tokens = len target.
Proof. exact (generate_one_pair1_tokens left1 left2). Qed.

Lemma generate_one_pair1_tokenizable_witness :
  exists text target src_tokens tgt_tokens,
    generate_one_pair1 95 7 = Ok (text, target)
    /\ to_tokens text = Ok src_tokens
    /\ to_tokens target = Ok tgt_tokens
    /\ len target = Z.max (len (py_str 95)) (len (py_str 7))
    /\ len src_tokens = 2 * len target + 2
    /\ len tgt_tokens = len target.
Proof. apply (generate_one_pair1_tokenizable 95 7); lia. Defined.

(** X12. generate_one_pair indexes operators_function with the position of
    the operator in [operators], and the two lists are not aligned: ['+']
    yields the difference, ['$'] yields the sum, ['-'] raises TypeError
    (its entry is None) and ['='] raises IndexError. *)
Theorem generate_one_pair_operator_table (left1 left2 : Z) :
  generate_one_pair left1 left2 (inl (str "+"))
  = Ok (reverse (py_str left1) ++ str "+" ++ reverse (py_str left2) ++ str "=",
        reverse (py_str (left1 - left2)))
  /\ generate_one_pair left1 left2 (inl (str "$"))
     = Ok (reverse (py_str left1) ++ str "$" ++ reverse (py_str left2)
           ++ str "=",
           reverse (py_str (left1 + left2)))
  /\ generate_one_pair left1 left2 (inl (str "-")) = Raise TypeError
  /\ generate_one_pair left1 left2 (inl (str "=")) = Raise IndexError.
Proof. split_and!; reflexivity. Qed.

(** ** Batches and their masks *)

Lemma and3_rows (rows : tensor2 bool) (L : nat) :
  Forall (fun row => length row = L) rows ->
  and3 (unsqueeze_m2 rows) (subsequent_mask L)
  = Ok ((fun row => zip_with andb row <$> hd [] (subsequent_mask L)) <$> rows).
Proof.
  intros Hrows. unfold and3, unsqueeze_m2.
  pose proof (subsequent_mask_shape L) as [Hl Hm].
  destruct (subsequent_mask L) as [|m [|? ?]]; try done.
  apply Forall_cons in Hm as [[Hm1 Hm2] _]. cbn [hd].
  assert (Hrow : forall row, row ∈ rows ->
            broadcast (broadcast (fun a b => Ok (a && b))) [row] m
            = Ok (zip_with andb row <$> m)).
  { intros row Hrow. apply (broadcast_one_l _ (zip_with andb)).
    intros m_i Hi. apply broadcast_same; [|done].
    rewrite (proj1 (Forall_forall _ _) Hrows row Hrow).
    symmetry. exact (proj1 (Forall_forall _ _) Hm2 m_i Hi). }
  unfold broadcast at 1. rewrite length_fmap. cbn [length].
  destruct (decide (length rows = 1%nat)) as [E|E].
  - destruct rows as [|row [|? ?]]; try done.
    cbn [fmap list_fmap zip zip_with traverse fst snd].
    rewrite Hrow by (apply elem_of_cons; auto). done.
  - assert (Hgen : traverse
              (fun a => broadcast (broadcast (fun a b => Ok (a && b))) a m)
              ((fun row => [row]) <$> rows)
            = Ok ((fun row => zip_with andb row <$> m) <$> rows)).
    { rewrite (traverse_ok _ (fun a => zip_with andb (hd [] a) <$> m)).
      - by rewrite <- list_fmap_compose.
      - intros a Ha. apply list_elem_of_fmap in Ha as (row & -> & Hr).
        by apply Hrow. }
    destruct rows as [|row [|? ?]]; try done.
Qed.

Lemma make_std_mask_rows (tgt : tensor2 Z) (pad : Z) :
  Forall (fun row => length row = size_last tgt) tgt ->
  make_std_mask tgt pad
  = Ok ((fun row => zip_with andb ((fun v => negb (v =? pad)) <$> row)
                      <$> hd [] (subsequent_mask (size_last tgt))) <$> tgt).
Proof.
  intros H. unfold make_std_mask. rewrite and3_rows.
  - unfold ne2, map2. by rewrite <- list_fmap_compose.
  - unfold ne2, map2. rewrite Forall_fmap.
    eapply Forall_impl; [exact H|]. intros row Hr. cbn. by rewrite length_fmap.
Qed.

Lemma make_std_mask_entries (tgt : tensor2 Z) (pad : Z) :
  Forall (fun row => length row = size_last tgt) tgt ->
  exists mask,
    make_std_mask tgt pad = Ok mask
    /\ length mask = length tgt
    /\ forall b i j v,
         at2 tgt b j = Some v -> (i < size_last tgt)%nat ->
         at3 mask b i j
         = Some (negb (v =? pad) && bool_decide (j <= i)%nat).
Proof.
  intros H. rewrite (make_std_mask_rows tgt pad H). eexists.
  split; [reflexivity|]. split; [by rewrite length_fmap|].
  intros b i j v Hv Hi. unfold at3, at2 in *.
  rewrite list_lookup_fmap.
  destruct (tgt !! b) as [row|] eqn:Hrow; [|done].
  cbn [fmap option_fmap option_map mbind option_bind] in Hv |- *.
  pose proof (proj1 (Forall_lookup _ _) H b row Hrow) as Hlen. cbn in Hlen.
  assert (Hj : (j < size_last tgt)%nat).
  { rewrite <- Hlen. by eapply lookup_lt_Some. }
  pose proof (subsequent_mask_at (size_last tgt) i j Hi Hj) as Hat.
  unfold at3, at2 in Hat.
  destruct (subsequent_mask (size_last tgt)) as [|m ?]; [done|].
  cbn [mbind option_bind lookup list_lookup hd] in Hat |- *.
  rewrite list_lookup_fmap.
  destruct (m !! i) as [m_i|]; [|done].
  cbn [mbind option_bind fmap option_fmap option_map] in Hat |- *.
  rewrite lookup_zip_with, list_lookup_fmap, Hv, Hat. done.
Qed.

(** X13. Batch.make_std_mask on a rectangular target succeeds with one mask
    per row, and entry [(b, i, j)] is true exactly when token [j] of row
    [b] is not the pad and [j <= i]. *)
Theorem make_std_mask_spec (tgt : tensor2 Z) (pad : Z) :
  Forall (fun row => length row = size_last tgt) tgt ->
  exists mask,
    make_std_mask tgt pad = Ok mask
    /\ length mask = length tgt
    /\ forall b i j v,
         at2 tgt b j = Some v -> (i < size_last tgt)%nat ->
         at3 mask b i j
         = Some (negb (v =? pad) && bool_decide (j <= i)%nat).
Proof. exact (make_std_mask_entries tgt pad). Qed.

Lemma make_std_mask_spec_witness :
  exists mask,
    make_std_mask [[1; 7; 8; 2]; [1; 7; 2; 0]] 0 = Ok mask
    /\ length mask = length [[1; 7; 8; 2]; [1; 7; 2; 0]]
    /\ forall b i j v,
         at2 [[1; 7; 8; 2]; [1; 7; 2; 0]] b j = Some v ->
         (i < size_last [[1; 7; 8; 2]; [1; 7; 2; 0]])%nat ->
         at3 mask b i j
         = Some (negb (v =? 0) && bool_decide (j <= i)%nat).
Proof.
  apply (make_std_mask_spec [[1; 7; 8; 2]; [1; 7; 2; 0]] 0).
  repeat constructor.
Defined.

Lemma count_ne_bounds (t : tensor2 Z) (pad : Z) (L : nat) :
  Forall (fun row => length row = L) t ->
  0 <= count_ne t pad <= len t * Z.of_nat L.
Proof.
  unfold count_ne, len, ne2, map2. intros H. split; [lia|].
  induction H as [|row t Hrow _ IH].
  - simpl. lia.
  - rewrite fmap_cons. cbn [concat]. rewrite filter_app, length_app.
    pose proof (length_filter (fun b => b = true)
                  ((fun v => negb (v =? pad)) <$> row)) as Hf.
    rewrite length_fmap in Hf. cbn [length]. lia.
Qed.

Lemma size_last_rect {A} (t : tensor2 A) (L : nat) :
  Forall (fun row => length row = L) t ->
  Forall (fun row => length row = size_last t) t.
Proof.
  intros H. destruct H as [|row t Hrow H]; [constructor|].
  cbn [size_last]. constructor; [done|].
  eapply Forall_impl; [exact H|]. intros r Hr. cbn in *. congruence.
Qed.

Lemma Batch_init_rect (src_data tgt : tensor2 Z) (pad : Z) (L : nat) :
  Forall (fun row => length row = S L) tgt ->
  exists batch bt,
    Batch_init src_data (Some tgt) pad = Ok batch
    /\ src batch = src_data
    /\ batch_target batch = Some bt
    /\ bt_tgt bt = take L <$> tgt
    /\ bt_tgt_y bt = drop 1 <$> tgt
    /\ has_shape2 (bt_tgt bt) (length tgt) L
    /\ has_shape2 (bt_tgt_y bt) (length tgt) L
    /\ bt_ntokens bt = count_ne (bt_tgt_y bt) pad
    /\ 0 <= bt_ntokens bt <= len tgt * Z.of_nat L
    /\ make_std_mask (bt_tgt bt) pad = Ok (bt_tgt_mask bt)
    /\ forall b j v,
         at2 src_data b j = Some v ->
         at3 (src_mask batch) b 0 j = Some (negb (v =? pad)).
Proof.
  intros H. unfold Batch_init.
  assert (Etgt : (fun row : list Z => take (length row - 1) row) <$> tgt
                 = take L <$> tgt).
  { apply Forall_fmap_ext_1. eapply Forall_impl; [exact H|].
    intros row Hr. cbn in *. rewrite Hr. f_equal. lia. }
  rewrite Etgt.
  assert (S1 : Forall (fun row => length row = L) (take L <$> tgt)).
  { rewrite Forall_fmap. eapply Forall_impl; [exact H|].
    intros row Hr. cbn in *. rewrite length_take. lia. }
  assert (S2 : Forall (fun row => length row = L) (drop 1 <$> tgt)).
  { rewrite Forall_fmap. eapply Forall_impl; [exact H|].
    intros row Hr. cbn in *. rewrite length_drop. lia. }
  destruct (make_std_mask_entries (take L <$> tgt) pad) as (mask & Em & _).
  { by eapply size_last_rect. }
  rewrite Em. cbn [mbind result_bind]. do 2 eexists.
  split; [reflexivity|]. split; [reflexivity|].
  cbn [batch_target bt_tgt bt_tgt_y bt_ntokens bt_tgt_mask src_mask].
  split; [reflexivity|]. cbn [bt_tgt bt_tgt_y bt_ntokens bt_tgt_mask].
  unfold has_shape2. rewrite !length_fmap.
  pose proof (count_ne_bounds (drop 1 <$> tgt) pad L S2) as Hb.
  unfold len in *. rewrite length_fmap in Hb.
  split_and!; try done; try lia.
  - intros b j v Hv. unfold at3, at2, unsqueeze_m2, ne2, map2 in *.
    rewrite !list_lookup_fmap.
    destruct (src_data !! b) as [row|]; [|done].
    cbn [fmap option_fmap option_map mbind option_bind lookup list_lookup]
      in Hv |- *.
    by rewrite list_lookup_fmap, Hv.
Qed.

(** X14. Batch.__init__ with a target whose rows all have length [L + 1]
    keeps [src], sets [tgt] to the rows without their last token and
    [tgt_y] to the rows without their first token (both of shape
    [rows x L]), sets [ntokens] to the number of non-pad entries of
    [tgt_y] (between 0 and [rows * L]), [tgt_mask] to
    [make_std_mask(tgt, pad)], and [src_mask] to the non-pad positions of
    [src]. *)
Theorem Batch_init_spec (src_data tgt : tensor2 Z) (pad : Z) (L : nat) :
  Forall (fun row => length row = S L) tgt ->
  exists batch bt,
    Batch_init src_data (Some tgt) pad = Ok batch
    /\ src batch = src_data
    /\ batch_target batch = Some bt
    /\ bt_tgt bt = take L <$> tgt
    /\ bt_tgt_y bt = drop 1 <$> tgt
    /\ has_shape2 (bt_tgt bt) (length tgt) L
    /\ has_shape2 (bt_tgt_y bt) (length tgt) L
    /\ bt_ntokens bt = count_ne (bt_tgt_y bt) pad
    /\ 0 <= bt_ntokens bt <= len tgt * Z.of_nat L
    /\ make_std_mask (bt_tgt bt) pad = Ok (bt_tgt_mask bt)
    /\ forall b j v,
         at2 src_data b j = Some v ->
         at3 (src_mask batch) b 0 j = Some (negb (v =? pad)).
Proof. exact (Batch_init_rect src_data tgt pad L). Qed.

Lemma Batch_init_spec_witness :
  exists batch bt,
    Batch_init [[1; 7; 8; 2]] (Some [[1; 7; 8; 2; 0]; [1; 7; 2; 0; 0]]) 0
    = Ok batch
    /\ src batch = [[1; 7; 8; 2]]
    /\ batch_target batch = Some bt
    /\ bt_tgt bt = take 4 <$> [[1; 7; 8; 2; 0]; [1; 7; 2; 0; 0]]
    /\ bt_tgt_y bt = drop 1 <$> [[1; 7; 8; 2; 0]; [1; 7; 2; 0; 0]]
    /\ has_shape2 (bt_tgt bt) (length [[1; 7; 8; 2; 0]; [1; 7; 2; 0; 0]]) 4
    /\ has_shape2 (bt_tgt_y bt) (length [[1; 7; 8; 2; 0]; [1; 7; 2; 0; 0]]) 4
    /\ bt_ntokens bt = count_ne (bt_tgt_y bt) 0
    /\ 0 <= bt_ntokens bt
       <= len [[1; 7; 8; 2; 0]; [1; 7; 2; 0; 0]] * Z.of_nat 4
    /\ make_std_mask (bt_tgt bt) 0 = Ok (bt_tgt_mask bt)
    /\ forall b j v,
         at2 [[1; 7; 8; 2]] b j = Some v ->
         at3 (src_mask batch) b 0 j = Some (negb (v =? 0)).
Proof.
  apply (Batch_init_spec [[1; 7; 8; 2]] [[1; 7; 8; 2; 0]; [1; 7; 2; 0; 0]] 0 4).
  repeat constructor.
Defined.

(** ** Training loop: errors and counters *)

Section RunEpochMore.
Context {W Out LossNode : Type}.
Variable model_forward :
  tensor2 Z -> tensor2 Z -> tensor3 bool -> tensor3 bool -> W -> Out * W.
Variable loss_compute :
  Out -> tensor2 Z -> Z -> W -> (Q * LossNode) * W.
Variable backward : LossNode -> W -> unit * W.
Variable optimizer : Optimizer W.
Variable scheduler : Scheduler W.

Ltac run_M :=
  unfold mbind, M_MBind, M_bind, mret, M_MRet, M_ret, lift, call;
  cbn beta iota delta [world calls fst snd].

(** X15. run_epoch on an empty iterator raises ZeroDivisionError (the mean
    loss divides by zero tokens), whatever the mode, without calling the
    model, the loss, the optimizer or the scheduler. *)
Theorem run_epoch_empty (mode : string) (accum_iter : Z)
    (train_state : TrainState) (s : machine W (epoch_call Out LossNode)) :
  run_epoch model_forward loss_compute backward optimizer scheduler
    [] mode accum_iter train_state s
  = (Raise ZeroDivisionError, s).
Proof. reflexivity. Qed.

(** X16. run_epoch raises AttributeError on a first batch built without a
    target (it has no [tgt] attribute), before any call to the model. *)
Theorem run_epoch_no_target (batch : Batch) (data_iter : list Batch)
    (mode : string) (accum_iter : Z) (train_state : TrainState)
    (s : machine W (epoch_call Out LossNode)) :
  batch_target batch = None ->
  run_epoch model_forward loss_compute backward optimizer scheduler
    (batch :: data_iter) mode accum_iter train_state s
  = (Raise AttributeError, s).
Proof.
  intros H. unfold run_epoch. cbn [run_epoch_loop]. run_M.
  unfold run_epoch_body, batch_attr. rewrite H. run_M. done.
Qed.

(** X17. In a training mode with [accum_iter = 0], run_epoch raises
    ZeroDivisionError on the first batch, and only after the forward pass,
    the loss and the backward pass of that batch have run. *)
Theorem run_epoch_accum_iter_zero (batch : Batch) (bt : BatchTarget)
    (data_iter : list Batch) (mode : string) (train_state : TrainState)
    (s : machine W (epoch_call Out LossNode)) :
  is_train mode = true -> batch_target batch = Some bt ->
  let res := run_epoch model_forward loss_compute backward optimizer
               scheduler (batch :: data_iter) mode 0 train_state s in
  exists new,
    res.1 = Raise ZeroDivisionError
    /\ calls res.2 = calls s ++ new
    /\ map kind_of new = [KForward; KLossCompute; KBackward].
Proof.
  intros Hm Ht res. subst res. unfold run_epoch. cbn [run_epoch_loop]. run_M.
  unfold run_epoch_body, batch_attr, py_mod. rewrite Ht, Hm. run_M.
  destruct (model_forward _ _ _ _ _) as [out w1]. run_M.
  destruct (loss_compute _ _ _ _) as [[loss node] w2]. run_M.
  destruct (backward node w2) as [[] w3]. run_M.
  eexists. split; [reflexivity|]. rewrite <- !app_assoc.
  split; [reflexivity|]. reflexivity.
Qed.
End RunEpochMore.

Lemma run_epoch_no_target_witness :
  exists batch,
    Batch_init [[1; 7; 2]] None pad_symbol = Ok batch
    /\ run_epoch ledger_forward ledger_loss_compute ledger_backward
         ledger_optimizer ledger_scheduler [batch] "train" 1
         {| step := 0; accum_step := 0; samples := 0; tokens := 0 |}
         {| world := {| pending := []; applied := [] |}; calls := [] |}
       = (Raise AttributeError,
          {| world := {| pending := []; applied := [] |}; calls := [] |}).
Proof.
  eexists. split; [reflexivity|].
  apply (run_epoch_no_target ledger_forward ledger_loss_compute
           ledger_backward ledger_optimizer ledger_scheduler).
  reflexivity.
Defined.

Lemma run_epoch_accum_iter_zero_witness :
  exists batch,
    digit_batch 3 = Ok batch
    /\ let res := run_epoch ledger_forward ledger_loss_compute ledger_backward
                    ledger_optimizer ledger_scheduler [batch] "train+log" 0
                    {| step := 0; accum_step := 0; samples := 0; tokens := 0 |}
                    {| world := {| pending := []; applied := [] |};
                       calls := [] |} in
       exists new,
         res.1 = Raise ZeroDivisionError
         /\ calls res.2 = [] ++ new
         /\ map kind_of new = [KForward; KLossCompute; KBackward].
Proof.
  eexists. split; [reflexivity|].
  eapply (run_epoch_accum_iter_zero ledger_forward ledger_loss_compute
            ledger_backward ledger_optimizer ledger_scheduler);
    reflexivity.
Defined.

Lemma ceil_step (a i : Z) :
  1 <= a ->
  (i + 1 + a - 1) / a - (i + a - 1) / a = if i mod a =? 0 then 1 else 0.
Proof.
  intros Ha. pose proof (Z.div_mod i a ltac:(lia)) as Hdm.
  pose proof (Z.mod_pos_bound i a ltac:(lia)) as Hr.
  replace (i + 1 + a - 1) with (i + 1 * a) by lia.
  rewrite Z.div_add by lia.
  destruct (i mod a =? 0) eqn:E.
  - apply Z.eqb_eq in E.
    replace (i + a - 1) with (a - 1 + (i / a) * a) by lia.
    rewrite Z.div_add by lia. rewrite (Z.div_small (a - 1) a) by lia. lia.
  - apply Z.eqb_neq in E.
    replace (i + a - 1) with (i mod a - 1 + (i / a + 1) * a) by lia.
    rewrite Z.div_add by lia. rewrite (Z.div_small (i mod a - 1) a) by lia.
    lia.
Qed.

Lemma opt_steps_closed (accum_iter i : Z) (n : nat) :
  1 <= accum_iter ->
  opt_steps accum_iter i n
  = (i + Z.of_nat n + accum_iter - 1) / accum_iter
    - (i + accum_iter - 1) / accum_iter.
Proof.
  intros Ha. revert i. induction n as [|n IH]; intros i.
  - cbn [opt_steps]. replace (i + Z.of_nat 0 + accum_iter - 1)
      with (i + accum_iter - 1) by lia. lia.
  - cbn [opt_steps]. rewrite IH, <- (ceil_step accum_iter i Ha).
    replace (i + 1 + Z.of_nat n + accum_iter - 1)
      with (i + Z.of_nat (S n) + accum_iter - 1) by lia.
    lia.
Qed.

Lemma opt_steps_nonneg (accum_iter i : Z) (n : nat) :
  0 <= opt_steps accum_iter i n.
Proof.
  revert i. induction n as [|n IH]; intros i; cbn [opt_steps]; [lia|].
  specialize (IH (i + 1)). destruct (_ =? 0); lia.
Qed.

Lemma epoch_kinds_from_opt_steps (mode : string) (accum_iter i : Z) (n : nat) :
  is_train mode = true ->
  count_kind KOptimizerStep (epoch_kinds_from mode accum_iter i n)
  = Z.to_nat (opt_steps accum_iter i n).
Proof.
  intros Hm. revert i. induction n as [|n IH]; intros i; [done|].
  cbn [epoch_kinds_from opt_steps]. unfold count_kind in *.
  rewrite filter_app, length_app, IH.
  pose proof (opt_steps_nonneg accum_iter (i + 1) n).
  unfold epoch_kinds. rewrite Hm, andb_true_r.
  destruct (i mod accum_iter =? 0), (i mod 40 =? 1);
    match goal with
    | |- (?a + _)%nat = _ =>
        let v := eval vm_compute in a in change a with v
    end; lia.
Qed.

Lemma train_state_after_train (mode : string) (accum_iter : Z)
    (data_iter : list Batch) (i : Z) (ts : TrainState) :
  is_train mode = true ->
  train_state_after mode accum_iter i data_iter ts
  = {| step := step ts + len data_iter;
       accum_step := accum_step ts + opt_steps accum_iter i (length data_iter);
       samples := samples ts + sum_samples data_iter;
       tokens := tokens ts + sum_ntokens data_iter |}.
Proof.
  intros Hm. revert i ts.
  induction data_iter as [|b bs IH]; intros i ts.
  - destruct ts. cbn. f_equal; unfold len; cbn; lia.
  - cbn [train_state_after]. rewrite IH. unfold next_train_state.
    rewrite Hm. cbn [step accum_step samples tokens length opt_steps
      sum_samples sum_ntokens foldr].
    unfold sum_samples, sum_ntokens, len. cbn [length].
    f_equal; lia.
Qed.

(** X18. A training epoch over [n >= 1] batches that all carry a
    target, with [accum_iter >= 1], returns a train state whose [step]
    grew by [n], [accum_step] by [ceil(n / accum_iter)], [samples] by the number of source rows and
    [tokens] by the sum of the batches' [ntokens]; it runs [n] backward
    passes and [n] scheduler steps, and [ceil(n / accum_iter)] optimizer
    steps and zero_grad calls. *)
Theorem run_epoch_train_counters {W Out LossNode}
    (model_forward :
       tensor2 Z -> tensor2 Z -> tensor3 bool -> tensor3 bool -> W -> Out * W)
    (loss_compute : Out -> tensor2 Z -> Z -> W -> (Q * LossNode) * W)
    (backward : LossNode -> W -> unit * W)
    (optimizer : Optimizer W) (scheduler : Scheduler W)
    (data_iter : list Batch) (mode : string) (accum_iter : Z)
    (train_state : TrainState) (s : machine W (epoch_call Out LossNode)) :
  is_train mode = true -> 1 <= accum_iter -> data_iter <> [] ->
  Forall (fun batch => batch_target batch <> None) data_iter ->
  let res := run_epoch model_forward loss_compute backward optimizer
               scheduler data_iter mode accum_iter train_state s in
  let n := len data_iter in
  let steps := (n + accum_iter - 1) / accum_iter in
  exists new q,
    calls res.2 = calls s ++ new
    /\ res.1
       = Ok (q, {| step := step train_state + n;
                   accum_step := accum_step train_state + steps;
                   samples := samples train_state + sum_samples data_iter;
                   tokens := tokens train_state + sum_ntokens data_iter |})
    /\ count_kind KBackward (map kind_of new) = length data_iter
    /\ count_kind KSchedulerStep (map kind_of new) = length data_iter
    /\ count_kind KOptimizerStep (map kind_of new) = Z.to_nat steps
    /\ count_kind KZeroGrad (map kind_of new) = Z.to_nat steps.
Proof.
  intros Hm Ha Hne Hall res n steps.
  destruct (run_epoch_train_calls model_forward loss_compute backward
              optimizer scheduler data_iter mode accum_iter train_state s
              Hm ltac:(lia) Hne Hall)
    as (new & q & Hc & Hk & _ & Hr).
  fold res in Hc, Hr.
  destruct (epoch_kinds_from_counts mode accum_iter 0 (length data_iter) Hm)
    as (Hb & Hs & Hz).
  assert (Hsteps : opt_steps accum_iter 0 (length data_iter) = steps).
  { rewrite opt_steps_closed by done. subst steps n. unfold len.
    rewrite !Z.add_0_l, (Z.div_small (accum_iter - 1)) by lia. lia. }
  exists new, q. rewrite Hk, Hb, Hs, Hz.
  rewrite epoch_kinds_from_opt_steps, Hsteps by done.
  split_and!; try done.
  rewrite Hr, train_state_after_train, Hsteps by done. done.
Qed.

Lemma run_epoch_train_counters_witness :
  exists data_iter,
    traverse digit_batch [0; 1; 2] = Ok data_iter
    /\ let res := run_epoch ledger_forward ledger_loss_compute ledger_backward
                    ledger_optimizer ledger_scheduler data_iter "train" 2
                    {| step := 0; accum_step := 0; samples := 0; tokens := 0 |}
                    {| world := {| pending := []; applied := [] |};
                       calls := [] |} in
       exists new q,
         calls res.2 = [] ++ new
         /\ res.1
            = Ok (q, {| step := 0 + len data_iter;
                        accum_step := 0 + (len data_iter + 2 - 1) / 2;
                        samples := 0 + sum_samples data_iter;
                        tokens := 0 + sum_ntokens data_iter |})
         /\ count_kind KBackward (map kind_of new) = length data_iter
         /\ count_kind KSchedulerStep (map kind_of new) = length data_iter
         /\ count_kind KOptimizerStep (map kind_of new)
            = Z.to_nat ((len data_iter + 2 - 1) / 2)
         /\ count_kind KZeroGrad (map kind_of new)
            = Z.to_nat ((len data_iter + 2 - 1) / 2).
Proof.
  eexists. split; [reflexivity|].
  apply (run_epoch_train_counters ledger_forward ledger_loss_compute
           ledger_backward ledger_optimizer ledger_scheduler).
  - reflexivity.
  - lia.
  - discriminate.
  - repeat (constructor; [discriminate|]). constructor.
Defined.

(** ** Evaluation ignores the optimizer *)

Lemma run_epoch_loop_eval_any {W Out LossNode}
    (model_forward :
       tensor2 Z -> tensor2 Z -> tensor3 bool -> tensor3 bool -> W -> Out * W)
    (loss_compute : Out -> tensor2 Z -> Z -> W -> (Q * LossNode) * W)
    (backward backward' : LossNode -> W -> unit * W)
    (optimizer optimizer' : Optimizer W) (scheduler scheduler' : Scheduler W)
    (accum_iter : Z) (data_iter : list Batch) :
  forall i l s,
    run_epoch_loop model_forward loss_compute backward optimizer scheduler
      "eval" accum_iter i data_iter l s
    = run_epoch_loop model_forward loss_compute backward' optimizer'
        scheduler' "eval" accum_iter i data_iter l s.
Proof.
  induction data_iter as [|batch data_iter' IH]; intros i l s; [done|].
  cbn [run_epoch_loop]. unfold mbind, M_MBind, M_bind.
  change (run_epoch_body model_forward loss_compute backward optimizer
            scheduler "eval" accum_iter i batch l s)
    with (run_epoch_body model_forward loss_compute backward' optimizer'
            scheduler' "eval" accum_iter i batch l s).
  destruct (run_epoch_body _ _ _ _ _ _ _ _ _ _ s) as [[l1|e] s1]; [|done].
  apply IH.
Qed.

(** X19. In mode ["eval"] run_epoch never touches the optimizer or the
    scheduler: its result and its calls are those obtained with
    DummyOptimizer and DummyScheduler. *)
Theorem run_epoch_eval_any_optimizer {W Out LossNode}
    (model_forward :
       tensor2 Z -> tensor2 Z -> tensor3 bool -> tensor3 bool -> W -> Out * W)
    (loss_compute : Out -> tensor2 Z -> Z -> W -> (Q * LossNode) * W)
    (backward : LossNode -> W -> unit * W)
    (optimizer : Optimizer W) (scheduler : Scheduler W)
    (data_iter : list Batch) (accum_iter : Z) (train_state : TrainState)
    (s : machine W (epoch_call Out LossNode)) :
  run_epoch model_forward loss_compute backward optimizer scheduler
    data_iter "eval" accum_iter train_state s
  = run_epoch model_forward loss_compute backward DummyOptimizer
      DummyScheduler data_iter "eval" accum_iter train_state s.
Proof.
  unfold run_epoch, mbind, M_MBind, M_bind.
  by rewrite (run_epoch_loop_eval_any _ _ backward backward optimizer
                DummyOptimizer scheduler DummyScheduler).
Qed.

(** ** Greedy decoding: the short case and the mask *)

(** X20. greedy_decode with [max_len <= 1] (also zero or negative) returns
    the single start symbol after exactly one call, to [encode]: the
    decoder and the generator are never called. *)
Theorem greedy_decode_short {W Src SrcMask Memory Out}
    (model_encode : Src -> SrcMask -> W -> Memory * W)
    (model_decode :
       Memory -> SrcMask -> tensor2 Z -> tensor3 bool -> W -> Out * W)
    (model_generator : Out -> W -> tensor3 Q * W)
    (src : Src) (src_mask : SrcMask) (max_len start_symbol pad : Z)
    (s : machine W (decode_call Src SrcMask Memory Out)) :
  max_len <= 1 ->
  greedy_decode model_encode model_decode model_generator
    src src_mask max_len start_symbol pad s
  = (Ok [[start_symbol]],
     {| world := (model_encode src src_mask (world s)).2;
        calls := calls s
                 ++ [CallEncode src src_mask
                       (model_encode src src_mask (world s)).1] |}).
Proof.
  intros H. unfold greedy_decode, mbind, M_MBind, M_bind, call.
  destruct (model_encode src src_mask (world s)) as [memory w1].
  replace (Z.to_nat (max_len - 1)) with 0%nat by lia. reflexivity.
Qed.

Lemma greedy_decode_short_witness :
  greedy_decode end_encode end_decode end_generator
    [[1; 7; 2]] [[[true; true; true]]] 0 1 0 {| world := tt; calls := [] |}
  = (Ok [[1]],
     {| world := (end_encode [[1; 7; 2]] [[[true; true; true]]] tt).2;
        calls := [] ++ [CallEncode [[1; 7; 2]] [[[true; true; true]]]
                          (end_encode [[1; 7; 2]] [[[true; true; true]]] tt).1]
     |}).
Proof.
  apply (greedy_decode_short end_encode end_decode end_generator). lia.
Defined.

(** X21. The mask greedy_decode passes to the decoder for the prefix [ys] is
    the pad mask combined with the causal mask: entry [(0, i, j)] is true
    exactly when [ys[j]] is not the pad and [j <= i]. *)
Theorem greedy_decode_mask_entries (ys : list Z) (pad : Z) (i j : nat) (v : Z) :
  (i < length ys)%nat -> ys !! j = Some v ->
  exists ys_mask,
    and3 [ne2 [ys] pad] (subsequent_mask (size_last [ys])) = Ok ys_mask
    /\ at3 ys_mask 0 i j = Some (negb (v =? pad) && bool_decide (j <= i)%nat).
Proof.
  intros Hi Hj. exists (decoder_mask ys pad).
  split; [apply and3_decoder_mask|by apply decoder_mask_at].
Qed.

Lemma greedy_decode_mask_entries_witness :
  exists ys_mask,
    and3 [ne2 [[1; 7; 0]] 0] (subsequent_mask (size_last [[1; 7; 0]]))
    = Ok ys_mask
    /\ at3 ys_mask 0 2 1 = Some (negb (7 =? 0) && bool_decide (1 <= 2)%nat).
Proof.
  apply (greedy_decode_mask_entries [1; 7; 0] 0 2 1 7); [simpl; lia|reflexivity].
Defined.

(** ** Multi-headed attention: what is constructed *)

(** X22. MultiHeadedAttention.__init__ returns an object only when [h]
    is not zero and divides [d_model], [d_model] is not negative and the
    dropout rate lies in [0, 1]; the object then stores [h], a [d_k]
    with [d_k * h = d_model], four linear maps of shape
    [d_model x d_model] and the dropout rate.  A negative [d_model] that
    [h] divides passes the assertion and raises RuntimeError in
    [nn.Linear]. *)
Theorem MultiHeadedAttention_init_ok (h d_model : Z) (dropout : Q) :
  (forall m,
     MultiHeadedAttention_init h d_model dropout = Ok m ->
     h <> 0 /\ d_model mod h = 0 /\ 0 <= d_model
     /\ (0 <= dropout)%Q /\ (dropout <= 1)%Q
     /\ mha_h m = h /\ mha_d_k m * mha_h m = d_model
     /\ mha_linears m = replicate 4 (d_model, d_model)
     /\ mha_dropout_p m = dropout)
  /\ (h <> 0 -> d_model mod h = 0 -> d_model < 0 ->
      MultiHeadedAttention_init h d_model dropout = Raise RuntimeError).
Proof.
  unfold MultiHeadedAttention_init, py_mod, py_floordiv, nn_Linear,
    nn_Dropout, clones.
  split.
  - intros m. destruct (h =? 0) eqn:Hh; [done|]. apply Z.eqb_neq in Hh.
    cbn [mbind result_bind].
    destruct (d_model mod h =? 0) eqn:Hm; [|done]. apply Z.eqb_eq in Hm.
    cbn [py_assert mbind result_bind]. rewrite orb_diag.
    destruct (d_model <? 0) eqn:Hd; [done|]. apply Z.ltb_ge in Hd.
    cbn [mbind result_bind].
    destruct (Qle_bool 0 dropout) eqn:H0; [|done].
    destruct (Qle_bool dropout 1) eqn:H1; [|done].
    apply Qle_bool_iff in H0, H1.
    cbn [andb mbind result_bind]. intros [= <-].
    cbn [mha_h mha_d_k mha_linears mha_dropout_p].
    split_and!; try done.
    pose proof (Z.div_mod d_model h Hh). lia.
  - intros Hh Hm Hd. rewrite (proj2 (Z.eqb_neq _ _) Hh).
    cbn [mbind result_bind]. rewrite Hm.
    cbn [Z.eqb py_assert mbind result_bind].
    by rewrite (proj2 (Z.ltb_lt _ _) Hd).
Qed.

Lemma MultiHeadedAttention_init_ok_witness :
  exists m,
    MultiHeadedAttention_init 8 512 (1 # 10) = Ok m
    /\ mha_h m = 8 /\ mha_d_k m * mha_h m = 512
    /\ mha_linears m = replicate 4 (512, 512).
Proof.
  eexists. split; [reflexivity|].
  destruct (proj1 (MultiHeadedAttention_init_ok 8 512 (1 # 10)) _ eq_refl)
    as (_ & _ & _ & _ & _ & Hh & Hk & Hl & _).
  exact (conj Hh (conj Hk Hl)).
Defined.

(** ** Label smoothing: errors, and the one-hot case *)

Lemma scatter_1_raises {A} (t : tensor2 A) (index : list Z) (v : A) (size : Z) :
  Forall (fun row => len row = size) t ->
  Exists (fun k => ~ 0 <= k < size) index \/ (length t < length index)%nat ->
  scatter_1 t index v = Raise RuntimeError.
Proof.
  intros Ht. revert index.
  induction Ht as [|row t Hrow _ IH]; intros index H.
  - destruct index as [|k index]; [|done].
    destruct H as [H|H]; [by apply Exists_nil in H|simpl in H; lia].
  - destruct index as [|k index].
    { destruct H as [H|H]; [by apply Exists_nil in H|simpl in H; lia]. }
    cbn [scatter_1]. rewrite Hrow.
    destruct ((0 <=? k) && (k <? size)) eqn:E; [|done].
    apply andb_true_iff in E as [E1 E2].
    apply Z.leb_le in E1. apply Z.ltb_lt in E2.
    rewrite IH; [done|].
    destruct H as [H|H].
    + apply Exists_cons in H as [H|H]; [lia|by left].
    + right. simpl in H. lia.
Qed.

Lemma forallb_width {F} (x : tensor2 F) (size : Z) :
  forallb (fun row : list F => len row =? size) x = true
  <-> Forall (fun row => len row = size) x.
Proof.
  rewrite forallb_forall, Forall_forall. split.
  - intros H row Hr. apply Z.eqb_eq, H. by apply list_elem_of_In.
  - intros H row Hr. apply Z.eqb_eq, H. by apply list_elem_of_In.
Qed.

(** X23. The errors of LabelSmoothing.forward on a batch [x] that has
    at least one row, in the order the code reaches them: a row of [x]
    whose width is not [size] raises AssertionError; with the width
    right, [size = 2] raises ZeroDivisionError; otherwise a target
    outside [0, size) or more targets than rows raises RuntimeError
    (scatter_); otherwise a [padding_idx] outside [-size, size) raises
    IndexError.  (A batch without rows is left out: a list of rows does
    not record its width.) *)
Theorem LabelSmoothing_forward_errors {F L}
    (criterion : tensor2 F -> tensor2 Q -> L)
    (size padding_idx : Z) (smoothing : Q) (x : tensor2 F) (target : list Z) :
  let run := crit ← LabelSmoothing_init size padding_idx smoothing;
             LabelSmoothing_forward criterion crit x target in
  (Exists (fun row => len row <> size) x -> run = Raise AssertionError)
  /\ (x <> [] -> Forall (fun row => len row = size) x ->
      (size = 2 -> run = Raise ZeroDivisionError)
      /\ (size <> 2 ->
          Exists (fun t => ~ 0 <= t < size) target
          \/ (length x < length target)%nat ->
          run = Raise RuntimeError)
      /\ (size <> 2 ->
          Forall (fun t => 0 <= t < size) target ->
          (length target <= length x)%nat ->
          ~ - size <= padding_idx < size ->
          run = Raise IndexError)).
Proof.
  intros run. subst run. cbn [LabelSmoothing_init mbind result_bind].
  unfold LabelSmoothing_forward.
  cbn [ls_size ls_smoothing ls_confidence ls_padding_idx].
  split.
  - intros H.
    destruct (forallb _ x) eqn:E; [|done].
    apply forallb_width in E. apply Exists_exists in H as (row & Hr & Hne).
    by pose proof (proj1 (Forall_forall _ _) E row Hr).
  - intros _ Hx. rewrite (proj2 (forallb_width x size) Hx).
    cbn [py_assert mbind result_bind]. unfold py_truediv.
    split_and!.
    + intros ->. reflexivity.
    + intros Hs Hbad. rewrite (proj2 (Z.eqb_neq _ _)) by lia.
      cbn [mbind result_bind].
      rewrite (scatter_1_raises _ _ _ size); [done| |].
      * unfold fill_, map2. rewrite Forall_fmap.
        eapply Forall_impl; [exact Hx|]. intros row Hr. cbn in *.
        unfold len in *. by rewrite length_fmap.
      * destruct Hbad as [?|?]; [by left|right].
        unfold fill_, map2. by rewrite length_fmap.
    + intros Hs Ht Hlen Hpad. rewrite (proj2 (Z.eqb_neq _ _)) by lia.
      cbn [mbind result_bind].
      destruct (scatter_1_ok (fill_ x (smoothing / inject_Z (size - 2))%Q)
                  target (1 - smoothing)%Q size) as (t1 & -> & _).
      { unfold fill_, map2. by rewrite length_fmap. }
      { unfold fill_, map2. rewrite Forall_fmap.
        eapply Forall_impl; [exact Hx|]. intros row Hr. cbn in *.
        unfold len in *. by rewrite length_fmap. }
      { done. }
      cbn [mbind result_bind]. unfold setitem_col.
      destruct (padding_idx <? 0) eqn:E;
        [apply Z.ltb_lt in E|apply Z.ltb_ge in E].
      * replace (_ && _) with false
          by (symmetry; apply andb_false_iff; lia). done.
      * replace (_ && _) with false
          by (symmetry; apply andb_false_iff; lia). done.
Qed.

(** X24. With [smoothing = 0], on input of the right shape ([size]
    other than 2, rows of width [size], one target in [0, size) per row,
    [padding_idx] in [0, size)), the distribution
    LabelSmoothing.forward hands to the criterion is one-hot: row [i] is 1 at the target and 0
    elsewhere, and all zero when the target is the padding index. *)
Theorem label_smoothing_zero_one_hot {F L}
    (criterion : tensor2 F -> tensor2 Q -> L)
    (size padding_idx : Z) (x : tensor2 F) (target : list Z) :
  size <> 2 -> 0 <= padding_idx < size ->
  Forall (fun row => len row = size) x ->
  length target = length x ->
  Forall (fun t => 0 <= t < size) target ->
  exists true_dist crit',
    (crit ← LabelSmoothing_init size padding_idx 0;
     LabelSmoothing_forward criterion crit x target)
    = Ok (criterion x true_dist, crit')
    /\ forall i t j,
         target !! i = Some t -> 0 <= j < size ->
         exists q,
           at2 true_dist i (Z.to_nat j) = Some q
           /\ (q == if decide (j = t /\ t <> padding_idx) then 1 else 0)%Q.
Proof.
  intros Hsize Hpad Hx Hlen Htgt.
  destruct (true_dist_rows criterion size padding_idx 0 x target)
    as (td & crit' & E & _ & _ & Hrows); [done..|lia|done|].
  exists td, crit'. split; [done|].
  intros i t j Ht Hj.
  pose proof (proj1 (Forall_lookup _ _) Htgt i t Ht) as Hrange.
  cbn in Hrange. unfold at2. rewrite (Hrows i t Ht).
  cbn [mbind option_bind].
  destruct (decide (t = padding_idx)) as [->|Hne].
  - exists 0%Q. split; [apply lookup_replicate_2; lia|].
    rewrite decide_False by lia. reflexivity.
  - destruct (decide (j = padding_idx)) as [->|Hjp].
    + exists 0%Q. split.
      * apply list_lookup_insert_eq.
        rewrite length_insert, length_replicate. lia.
      * rewrite decide_False by lia. reflexivity.
    + rewrite list_lookup_insert_ne by lia.
      destruct (decide (j = t)) as [->|Hjt].
      * exists (1 - 0)%Q. split.
        -- apply list_lookup_insert_eq. rewrite length_replicate. lia.
        -- rewrite decide_True by lia. reflexivity.
      * exists (0 / inject_Z (size - 2))%Q. split.
        -- rewrite list_lookup_insert_ne by lia.
           apply lookup_replicate_2. lia.
        -- rewrite decide_False by lia. unfold Qdiv. ring.
Qed.

Lemma label_smoothing_zero_one_hot_witness :
  exists true_dist crit',
    (crit ← LabelSmoothing_init 5 0 0;
     LabelSmoothing_forward (fun (_ : tensor2 unit) (_ : tensor2 Q) => tt) crit
       (replicate 3 (replicate 5 tt)) [2; 0; 3])
    = Ok (tt, crit')
    /\ forall i t j,
         [2; 0; 3] !! i = Some t -> 0 <= j < 5 ->
         exists q,
           at2 true_dist i (Z.to_nat j) = Some q
           /\ (q == if decide (j = t /\ t <> 0%Z) then 1 else 0)%Q.
Proof.
  apply (label_smoothing_zero_one_hot (fun _ _ => tt) 5 0
           (replicate 3 (replicate 5 tt)) [2; 0; 3]).
  - lia.
  - lia.
  - repeat constructor.
  - reflexivity.
  - repeat constructor; lia.
Defined.

(** ** Learning-rate schedule: the peak, and what is raised *)

Lemma rate_at_most_peak (step model_size : Z) (factor : R) (warmup : Z) :
  0 < model_size < float_overflow -> 0 < warmup < float_overflow ->
  (0 <= factor)%R -> 1 <= step < float_overflow ->
  exists r,
    rate step model_size factor warmup = Ok (PyFloat r)
    /\ (0 <= r <= factor * (Rpower (IZR model_size) (-0.5)
                            * Rpower (IZR warmup) (-0.5)))%R.
Proof.
  intros Hm Hw Hf Hs.
  assert (Hpm : (0 < Rpower (IZR model_size) (-0.5))%R) by apply exp_pos.
  assert (HW : (0 < IZR warmup)%R) by (apply IZR_lt; lia).
  assert (HS : (0 < IZR step)%R) by (apply IZR_lt; lia).
  destruct (Z_le_gt_dec step warmup) as [Hle|Hgt].
  - rewrite rate_warmup by lia. eexists. split; [reflexivity|].
    pose proof (exp_pos (-1.5 * ln (IZR warmup))) as Hp.
    fold (Rpower (IZR warmup) (-1.5)) in Hp.
    split.
    + apply Rmult_le_pos; [done|]. apply Rmult_le_pos; [lra|].
      apply Rmult_le_pos; lra.
    + apply Rmult_le_compat_l; [lra|].
      apply Rmult_le_compat_l; [lra|].
      rewrite (Rpower_split (IZR warmup)) by done.
      apply Rmult_le_compat_r; [lra|].
      apply IZR_le. lia.
  - rewrite rate_decay by lia. eexists. split; [reflexivity|].
    split.
    + apply Rmult_le_pos; [done|]. apply Rmult_le_pos; [lra|].
      apply Rlt_le, exp_pos.
    + apply Rmult_le_compat_l; [lra|].
      apply Rmult_le_compat_l; [lra|].
      replace (-0.5)%R with (- (0.5))%R by lra.
      apply Rpower_neg_le; [lra|]. split; [done|]. apply IZR_le. lia.
Qed.

(** X25. For a positive [model_size] that converts to a float, a
    positive [warmup] and a [step >= 0] below [step_limit], and a
    [factor] that is not negative, rate is not negative and never above
    its value at [step = warmup]: the schedule peaks at the warmup
    step. *)
Theorem rate_peak (step model_size : Z) (factor : R) (warmup : Z) :
  0 < model_size < float_overflow -> 0 < warmup < step_limit ->
  (0 <= factor)%R -> 0 <= step < step_limit ->
  exists r peak,
    rate step model_size factor warmup = Ok (PyFloat r)
    /\ rate warmup model_size factor warmup = Ok (PyFloat peak)
    /\ (0 <= r <= peak)%R.
Proof.
  intros Hm Hw Hf Hs. pose proof step_limit_lt_overflow as Hlim'.
  assert (Hpeak : rate warmup model_size factor warmup
                  = Ok (PyFloat (factor * (Rpower (IZR model_size) (-0.5)
                                           * Rpower (IZR warmup) (-0.5))))%R).
  { apply rate_decay; lia. }
  pose proof float_overflow_gt_1 as Hbig.
  pose proof step_limit_lt_overflow as Hlim.
  destruct (decide (step = 0)) as [->|Hne].
  - rewrite rate_zero_step.
    destruct (rate_at_most_peak 1 model_size factor warmup)
      as (r & Er & Hr); [lia|lia|done|lia|].
    exists r. eexists. split_and!; [done|exact Hpeak|apply Hr|apply Hr].
  - destruct (rate_at_most_peak step model_size factor warmup)
      as (r & Er & Hr); [lia|lia|done|lia|].
    exists r. eexists. split_and!; [done|exact Hpeak|apply Hr|apply Hr].
Qed.

Lemma rate_peak_witness :
  exists r peak,
    rate 20000 512 1 4000 = Ok (PyFloat r)
    /\ rate 4000 512 1 4000 = Ok (PyFloat peak)
    /\ (0 <= r <= peak)%R.
Proof.
  apply (rate_peak 20000 512 1 4000);
    [split; reflexivity|split; reflexivity|lra|split; [lia|reflexivity]].
Defined.

Lemma rate_unfold (step model_size : Z) (factor : R) (warmup : Z) :
  rate step model_size factor warmup
  = (let step := if step =? 0 then 1 else step in
     a ← py_pow model_size (-1 # 2);
     b ← py_pow step (-1 # 2);
     c ← py_pow warmup (-3 # 2);
     d ← py_mul_int step c;
     m ← py_min b d;
     Ok (py_mul (PyFloat factor) (py_mul a m))).
Proof. reflexivity. Qed.

(** In range and not zero, a base gives a float when positive and a
    complex number when negative. *)
Lemma py_pow_in_range (b : Z) (e : Q) :
  Qeq_bool e 0 = false -> Qle_bool 0 e = false -> is_integer e = false ->
  Z.abs b < float_overflow -> b <> 0 ->
  (0 < b /\ exists x, py_pow b e = Ok (PyFloat x))
  \/ (b < 0 /\ exists re im, py_pow b e = Ok (PyComplex re im)).
Proof.
  intros H0 Hle Hint Hb Hne. destruct (Z_lt_le_dec 0 b) as [Hp|Hn].
  - left. split; [done|]. rewrite py_pow_pos by (done || lia). eauto.
  - right. split; [lia|]. apply py_pow_neg_base; (done || lia).
Qed.

(** X26. What rate raises, in the order the code reaches it: a
    [model_size] too large for a float raises OverflowError and a
    [model_size] of 0 ZeroDivisionError; then a [step] too large raises
    OverflowError; then a [warmup] too large raises OverflowError and a
    [warmup] of 0 ZeroDivisionError; then a negative [step] or [warmup]
    raises TypeError (min on a complex number).  With none of these, a
    negative [model_size] makes the rate a complex number. *)
Theorem rate_raises (step model_size : Z) (factor : R) (warmup : Z) :
  let run := rate step model_size factor warmup in
  (float_overflow <= Z.abs model_size -> run = Raise OverflowError)
  /\ (model_size = 0 -> run = Raise ZeroDivisionError)
  /\ (Z.abs model_size < float_overflow -> model_size <> 0 ->
      (float_overflow <= Z.abs step -> run = Raise OverflowError)
      /\ (Z.abs step < float_overflow ->
          (float_overflow <= Z.abs warmup -> run = Raise OverflowError)
          /\ (warmup = 0 -> run = Raise ZeroDivisionError)
          /\ (Z.abs warmup < float_overflow -> warmup <> 0 ->
              (step < 0 \/ warmup < 0 -> run = Raise TypeError)
              /\ (0 <= step -> 0 < warmup -> model_size < 0 ->
                  exists re im, run = Ok (PyComplex re im))))).
Proof.
  intros run. subst run. rewrite rate_unfold. cbv zeta.
  pose proof float_overflow_gt_1 as Hbig.
  set (s := if step =? 0 then 1 else step).
  split_and!.
  - intros Hm. rewrite (py_pow_cases model_size) by done.
    by rewrite (proj2 (Z.ltb_ge _ _)) by lia.
  - intros ->. reflexivity.
  - intros Hm Hm0.
    destruct (py_pow_in_range model_size (-1 # 2)) as [[Hmp [a Ea]]|[Hmn [ar [ai Ea]]]];
      [done..|  |]; rewrite Ea; cbn [mbind result_bind].
    all: split.
    all: try (intros Hs; assert (Es : s = step)
                by (subst s; destruct (Z.eqb_spec step 0); [lia|done]);
              rewrite Es, (py_pow_cases step) by done;
              by rewrite (proj2 (Z.ltb_ge _ _)) by lia).
    all: intros Hs.
    all: assert (Hs' : Z.abs s < float_overflow /\ s <> 0
                       /\ (0 <= step -> 0 < s) /\ (step < 0 -> s < 0))
           by (subst s; destruct (Z.eqb_spec step 0); lia).
    all: destruct Hs' as (Hsr & Hs0 & Hsp & Hsn).
    all: destruct (py_pow_in_range s (-1 # 2)) as [[Hp [b Eb]]|[Hn [br [bi Eb]]]];
           [done..| |]; rewrite Eb; cbn [mbind result_bind].
    all: split_and!.
    all: try (intros Hw; rewrite (py_pow_cases warmup) by done;
              by rewrite (proj2 (Z.ltb_ge _ _)) by lia).
    all: try (intros ->; reflexivity).
    all: intros Hw Hw0.
    all: destruct (py_pow_in_range warmup (-3 # 2)) as [[Hwp [c Ec]]|[Hwn [cr [ci Ec]]]];
           [done..| |]; rewrite Ec; cbn [mbind result_bind].
    all: unfold py_mul_int, py_float; rewrite (proj2 (Z.ltb_lt _ _) Hsr);
           cbn [mbind result_bind py_mul py_min].
    all: split; [intros [?|?]; (reflexivity || lia)|intros ? ? ?; try lia].
    all: eauto.
Qed.

(** ** Datasets over a range *)

Lemma py_max_nonempty (l : list Z) : l <> [] -> exists m, py_max l = Ok m.
Proof. destruct l; [done|]. intros _. cbn [py_max]. eauto. Qed.

Lemma padding_batch_nonempty (batch : list (list Z)) :
  batch <> [] ->
  exists m rows,
    padding_batch batch = Ok rows
    /\ 0 <= m
    /\ length rows = length batch
    /\ Forall (fun row => len row = m + 2) rows.
Proof.
  intros Hne.
  destruct (py_max_nonempty (len <$> batch)) as [m Hm].
  { by destruct batch. }
  destruct (padding_batch_rows batch m Hm) as (E & Hle & Hex & Hrect).
  exists m. eexists. split; [exact E|]. split_and!.
  - apply Exists_exists in Hex as (item & _ & <-). unfold len. lia.
  - by rewrite length_fmap.
  - done.
Qed.

Section DatasetRangeProps.
Context {G : Type}.
Variable random : G -> Q * G.
Variable randrange : Z -> Z -> G -> Z * G.
Variable batch_size : Z.
Variable sample : Q.
Hypothesis batch_size_pos : 1 <= batch_size.

Let body := dataset_range_body random batch_size sample.
Let inner := dataset_range_inner random batch_size sample.
Let outer := dataset_range_outer random batch_size sample.

Ltac run_M :=
  unfold mbind, M_MBind, M_bind, mret, M_MRet, M_ret, lift, call;
  cbn beta iota delta [world calls fst snd].

Lemma dataset_range_body_spec (i j : Z) (acc : range_acc)
    (s : machine G rand_call) :
  0 <= i -> 0 <= j -> range_inv batch_size acc ->
  exists acc',
    (body i j acc s).1 = Ok acc'
    /\ range_inv batch_size acc'
    /\ range_total batch_size acc <= range_total batch_size acc' <= range_total batch_size acc + 1
    /\ ((forall g, sample <= (random g).1)%Q ->
        range_total batch_size acc' = range_total batch_size acc + 1).
Proof.
  intros Hi Hj (Hlen & Hlt & Hfull).
  unfold body, dataset_range_body. run_M.
  pose proof (fun H : (forall g, sample <= (random g).1)%Q => H (world s))
    as Hno.
  destruct (random (world s)) as [r g]. run_M. cbn [fst] in Hno.
  destruct (Qlt_le_dec r sample) as [Hskip|Hkeep]; run_M.
  { exists acc. split_and!; try done; try lia.
    intros H. exfalso. apply Hno in H. by apply Qle_not_lt in H. }
  destruct (generate_one_pair1_tokens i j Hi Hj)
    as (text & target & st & tt & Ep & Es & Et & _).
  rewrite Ep. run_M. rewrite Es. run_M. rewrite Et. run_M.
  unfold range_total, range_inv, len in *.
  destruct (Z.of_nat (length (acc_src_batch acc ++ [st])) =? batch_size)
    eqn:E; [apply Z.eqb_eq in E|apply Z.eqb_neq in E];
    rewrite length_app in E; cbn [length] in E.
  - destruct (padding_batch_nonempty (acc_src_batch acc ++ [st]))
      as (m1 & data & -> & Hm1 & L1 & R1); [by destruct (acc_src_batch acc)|].
    destruct (padding_batch_nonempty (acc_tgt_batch acc ++ [tt]))
      as (m2 & tgt_data & -> & Hm2 & L2 & R2);
      [by destruct (acc_tgt_batch acc)|].
    run_M.
    destruct (Batch_init_rect data tgt_data 0 (Z.to_nat (m2 + 1)))
      as (batch & bt & -> & Hsrc & Hbt & Etgt & Ey & _).
    { eapply Forall_impl; [exact R2|]. intros row Hr. cbn in *.
      unfold len in Hr. lia. }
    run_M. eexists. split; [reflexivity|].
    cbn [acc_src_batch acc_tgt_batch acc_yielded length].
    rewrite length_app in L1, L2. cbn [length] in L1, L2.
    split_and!; try done; try lia.
    + apply Forall_app. split; [done|]. constructor; [|constructor].
      split; [unfold len; rewrite Hsrc; lia|].
      exists bt. split; [done|]. unfold len.
      rewrite Etgt, Ey, !length_fmap. lia.
    + rewrite length_app. cbn [length]. lia.
    + rewrite length_app. cbn [length]. lia.
    + intros _. rewrite length_app. cbn [length]. lia.
  - eexists. split; [reflexivity|].
    cbn [acc_src_batch acc_tgt_batch acc_yielded].
    rewrite !length_app. cbn [length]. split_and!; try done; try lia.
Qed.

Lemma dataset_range_inner_spec (i : Z) (y_items : list Z) :
  0 <= i -> Forall (fun j => 0 <= j) y_items ->
  forall (acc : range_acc) (s : machine G rand_call),
  range_inv batch_size acc ->
  exists acc',
    (inner i y_items acc s).1 = Ok acc'
    /\ range_inv batch_size acc'
    /\ range_total batch_size acc <= range_total batch_size acc'
       <= range_total batch_size acc + len y_items
    /\ ((forall g, sample <= (random g).1)%Q ->
        range_total batch_size acc'
        = range_total batch_size acc + len y_items).
Proof.
  intros Hi Hy. induction Hy as [|j y_items Hj _ IH]; intros acc s Hinv.
  - exists acc. unfold len. cbn. split_and!; try done; lia.
  - unfold inner. cbn [dataset_range_inner]. run_M.
    destruct (dataset_range_body_spec i j acc s Hi Hj Hinv)
      as (acc1 & E1 & Hinv1 & Hb1 & Hn1).
    unfold body in E1.
    destruct (dataset_range_body _ _ _ _ _ _ s) as [r1 s1].
    cbn [fst] in E1. subst r1.
    destruct (IH acc1 s1 Hinv1) as (acc2 & E2 & Hinv2 & Hb2 & Hn2).
    exists acc2. unfold len in *. cbn [length].
    split_and!; try done; try lia.
    intros H. rewrite (Hn2 H), (Hn1 H). lia.
Qed.

Lemma dataset_range_outer_spec (x_items y_items : list Z) :
  Forall (fun i => 0 <= i) x_items -> Forall (fun j => 0 <= j) y_items ->
  forall (acc : range_acc) (s : machine G rand_call),
  range_inv batch_size acc ->
  exists acc',
    (outer x_items y_items acc s).1 = Ok acc'
    /\ range_inv batch_size acc'
    /\ range_total batch_size acc <= range_total batch_size acc'
       <= range_total batch_size acc + len x_items * len y_items
    /\ ((forall g, sample <= (random g).1)%Q ->
        range_total batch_size acc'
        = range_total batch_size acc + len x_items * len y_items).
Proof.
  intros Hx Hy. induction Hx as [|i x_items Hi _ IH]; intros acc s Hinv.
  - exists acc. unfold len. cbn. split_and!; try done; lia.
  - unfold outer. cbn [dataset_range_outer]. run_M.
    destruct (dataset_range_inner_spec i y_items Hi Hy acc s Hinv)
      as (acc1 & E1 & Hinv1 & Hb1 & Hn1).
    unfold inner in E1.
    destruct (dataset_range_inner _ _ _ _ _ _ s) as [r1 s1].
    cbn [fst] in E1. subst r1.
    destruct (IH acc1 s1 Hinv1) as (acc2 & E2 & Hinv2 & Hb2 & Hn2).
    exists acc2. unfold len in *. cbn [length].
    split_and!; try done; try lia.
    intros H. rewrite (Hn2 H), (Hn1 H). lia.
Qed.

(** X27. dataset_range over given non-negative [x_items] and [y_items] with
    [batch_size >= 1] never raises; every batch it yields has exactly
    [batch_size] source rows and [batch_size] target rows; it yields
    at most [len(x_items) * len(y_items) // batch_size] batches, and
    exactly that many when no pair is skipped by sampling. The pairs
    left over at the end (fewer than [batch_size]) are dropped. *)
Theorem dataset_range_batches (start stop : Z) (count : option Z)
    (x_items y_items : list Z) (s : machine G rand_call) :
  Forall (fun i => 0 <= i) x_items -> Forall (fun j => 0 <= j) y_items ->
  let res := dataset_range random randrange start stop batch_size sample
               count (Some x_items) (Some y_items) s in
  let pairs := len x_items * len y_items in
  exists batches,
    res.1 = Ok batches
    /\ Forall (full_batch batch_size) batches
    /\ len batches <= pairs / batch_size
    /\ ((forall g, sample <= (random g).1)%Q ->
        len batches = pairs / batch_size).
Proof.
  intros Hx Hy res pairs. subst res pairs. unfold dataset_range. run_M.
  set (acc0 := {| acc_src_batch := []; acc_tgt_batch := [];
                  acc_yielded := [] |}).
  assert (Hinv0 : range_inv batch_size acc0).
  { unfold range_inv, len. cbn. split_and!; [done|lia|constructor]. }
  destruct (dataset_range_outer_spec x_items y_items Hx Hy acc0 s Hinv0)
    as (acc1 & E1 & (Hl & Hk & Hfull) & Hb & Hn).
  unfold outer in E1.
  destruct (dataset_range_outer _ _ _ _ _ _ s) as [r1 s1].
  cbn [fst] in E1. subst r1. cbn [fst].
  exists (acc_yielded acc1). split; [done|]. split; [done|].
  unfold range_total in *. change (len (acc_yielded acc0)) with 0 in *.
  change (len (acc_src_batch acc0)) with 0 in *.
  assert (Hk0 : 0 <= len (acc_src_batch acc1)) by (unfold len; lia).
  assert (Hdiv : (len (acc_yielded acc1) * batch_size
                  + len (acc_src_batch acc1)) / batch_size
                 = len (acc_yielded acc1)).
  { rewrite Z.add_comm, Z.div_add by lia.
    rewrite Z.div_small by lia. lia. }
  split.
  - rewrite <- Hdiv. apply Z.div_le_mono; lia.
  - intros H. rewrite <- Hdiv, (Hn H). f_equal; lia.
Qed.
End DatasetRangeProps.

Lemma dataset_range_batches_witness :
  let res := dataset_range zero_random first_randrange 0 3 2 0 None
               (Some [0; 1; 2]) (Some [0; 1; 2])
               {| world := tt; calls := [] |} in
  let pairs := len [0; 1; 2] * len [0; 1; 2] in
  exists batches,
    res.1 = Ok batches
    /\ Forall (full_batch 2) batches
    /\ len batches <= pairs / 2
    /\ ((forall g, 0 <= (zero_random g).1)%Q -> len batches = pairs / 2).
Proof.
  apply (dataset_range_batches zero_random first_randrange 2 0).
  - lia.
  - repeat constructor; lia.
  - repeat constructor; lia.
Defined.

(** ** Tokenizer: the ids outside the vocabulary *)


(** X29. Whenever to_token returns an id, the id is below [voca_size]; it is
    negative exactly when the character is no operator and has a code
    point under 42, so such characters are encoded, to ids that index
    from the end, and not rejected. *)
Theorem to_token_id_bounds (c : pychar) (token : Z) :
  to_token c = Ok token ->
  token < voca_size
  /\ (token < 0 <-> py_in c operators = false /\ c < 42).
Proof.
  intros H. split; [by apply (to_token_lt c)|].
  destruct (py_in c operators) eqn:Hop.
  - destruct (to_token_operator c Hop) as (i & Hi & ?).
    rewrite Hi in H. injection H as <-. split; [lia|intros [? _]; done].
  - rewrite (to_token_other c Hop) in H.
    destruct (57 <? c) eqn:H9; [apply Z.ltb_lt in H9|apply Z.ltb_ge in H9].
    + destruct (c <? 75); [|done]. injection H as <-. lia.
    + injection H as <-. lia.
Qed.

Lemma to_token_id_bounds_witness :
  -10 < voca_size
  /\ (-10 < 0 <-> py_in (ch " ") operators = false /\ ch " " < 42).
Proof. apply (to_token_id_bounds (ch " ") (-10)). reflexivity. Defined.

(** ** Items of a range *)

Section ItemsRange.
Context {G : Type}.
Variable randrange : Z -> Z -> G -> Z * G.

Lemma randrange_items_ok (start stop : Z) (n : nat)
    (s : machine G rand_call) :
  start < stop ->
  exists items,
    (randrange_items randrange start stop n s).1 = Ok items
    /\ length items = n
    /\ length (calls (randrange_items randrange start stop n s).2)
       = (length (calls s) + n)%nat.
Proof.
  intros H. revert s. induction n as [|n IH]; intros s.
  - exists []. cbn. split_and!; try done; lia.
  - cbn [randrange_items]. unfold py_randrange.
    rewrite (proj2 (Z.leb_gt _ _)) by lia.
    unfold mbind, M_MBind, M_bind, mret, M_MRet, M_ret, call.
    destruct (randrange start stop (world s)) as [x g].
    set (s1 := {| world := g; calls := _ |}).
    destruct (IH s1) as (items & E & L & C).
    destruct (randrange_items randrange start stop n s1) as [r s2].
    cbn [fst snd] in *. subst r. exists (x :: items).
    split_and!; [done|by cbn; rewrite L|].
    cbn [snd]. rewrite C. subst s1. cbn [calls]. rewrite length_app. cbn. lia.
Qed.

(** X30. items_range_generate without [count] returns [range(start, end)]
    and draws nothing; with a [count] and a non-empty range it returns
    [count] items from [count] draws (none when [count <= 0]); with an
    empty range and [count >= 1] it raises ValueError at the first draw. *)
Theorem items_range_generate_spec (start stop count : Z)
    (s : machine G rand_call) :
  items_range_generate randrange start stop None s
  = (Ok (seqZ start (stop - start)), s)
  /\ (start < stop ->
      exists items,
        (items_range_generate randrange start stop (Some count) s).1
        = Ok items
        /\ length items = Z.to_nat count
        /\ length (calls (items_range_generate randrange start stop
                            (Some count) s).2)
           = (length (calls s) + Z.to_nat count)%nat)
  /\ (stop <= start -> 1 <= count ->
      items_range_generate randrange start stop (Some count) s
      = (Raise ValueError, s))
  /\ (count <= 0 ->
      items_range_generate randrange start stop (Some count) s = (Ok [], s)).
Proof.
  split_and!.
  - reflexivity.
  - intros H. apply randrange_items_ok. done.
  - intros H Hc. unfold items_range_generate.
    destruct (Z.to_nat count) as [|n] eqn:E; [lia|].
    cbn [randrange_items]. unfold py_randrange.
    by rewrite (proj2 (Z.leb_le _ _)) by lia.
  - intros Hc. unfold items_range_generate.
    by replace (Z.to_nat count) with 0%nat by lia.
Qed.
End ItemsRange.
